(** * Employees attendance system: matcher, ledger, report and registration

    A shallow embedding of [attendance_manager.py] and of the matching and
    registration code of [app.py], followed by the properties proved about
    them.  One module per source file; the definitions come first, the
    statements after them. *)

From Stdlib Require Import Floats Ascii.
From stdpp Require Import gmap strings list pretty sorting.

(** ** Values shared by both source files *)

(** What a call returns when SQLite refuses a statement: the exception
    leaves [mark_attendance] before [conn.commit()], so nothing of the
    batch is kept. *)
Inductive result (A : Type) : Type :=
  | Ok (a : A)
  | IntegrityError.
Arguments Ok {A} a.
Arguments IntegrityError {A}.

(** * attendance_manager.py *)
Module attendance_manager.

(** [datetime.date] and [datetime.time]: the fields are within their ranges
    by construction of the Python objects ([hour < 24], [minute < 60],
    [second < 60], [microsecond < 1000000], four-digit years). *)
Record datetime_date := { year : nat; month : nat; day : nat }.
Record datetime_time :=
  { hour : nat; minute : nat; second : nat; microsecond : nat }.

Definition digit (n : nat) : ascii := ascii_of_nat (48 + n mod 10).

(** [n] written with exactly [w] decimal digits ([%02d], [%04d], [%06d] on
    values that fit). *)
Fixpoint zfill (w n : nat) : string :=
  match w with
  | 0 => ""
  | S w' => zfill w' (n / 10) +:+ String (digit n) ""
  end%string.

(** [today.isoformat()]; [today.strftime('%Y-%m-%d')] prints the same text. *)
Definition date_isoformat (d : datetime_date) : string :=
  zfill 4 (year d) +:+ "-" +:+ zfill 2 (month d) +:+ "-" +:+ zfill 2 (day d).

Definition hms (h m s : nat) : string :=
  zfill 2 h +:+ ":" +:+ zfill 2 m +:+ ":" +:+ zfill 2 s.

(** [current_time.strftime('%H:%M:%S')] *)
Definition strftime_HMS (t : datetime_time) : string :=
  hms (hour t) (minute t) (second t).

(** [current_time.isoformat()]: the microseconds are printed unless zero. *)
Definition time_isoformat (t : datetime_time) : string :=
  strftime_HMS t +:+
  (if microsecond t =? 0 then "" else "." +:+ zfill 6 (microsecond t)).

(** One row of the [attendance] table, with the columns, defaults and
    constraints of the CREATE TABLE statement of [init_database].  The
    [DATE] and [TIME] columns hold the texts Python binds; [created_at] is
    SQLite's [CURRENT_TIMESTAMP], a UTC reading with a resolution of one
    second, kept here as the number of seconds (the texts compare alike). *)
Record row := {
  row_id : Z;
  row_employee_id : string;
  row_name : string;
  row_date : string;
  row_time_in : string;
  row_time_out : option string;
  row_status : string;
  row_created_at : Z
}.

Global Instance row_eq_dec : EqDecision row.
Proof. solve_decision. Defined.

(** An element of [employee_data_list]. *)
Record employee := {
  emp_employee_id : string;
  emp_name : string;
  emp_department : string;
  emp_position : string
}.

(** An element of [attendance_records]. *)
Record attendance_record := {
  rec_employee_id : string;
  rec_name : string;
  rec_date : string;
  rec_time_in : string;
  rec_time_out : option string;
  rec_status : string
}.

(** The readings of the clocks during one call: [date.today()] and
    [datetime.now().time()] are read once, [CURRENT_TIMESTAMP] by SQLite at
    each INSERT (indexed by the position of the event in the batch), and
    [date.today()] once more by [save_to_excel]. *)
Record clock := {
  today : datetime_date;
  current_time : datetime_time;
  CURRENT_TIMESTAMP : nat → Z;
  today_on_save : datetime_date
}.

(** *** The three SQL statements of [mark_attendance] *)

Definition session_of (employee_id date : string) (r : row) : Prop :=
  row_employee_id r = employee_id ∧ row_date r = date.

Global Instance session_of_dec e d r : Decision (session_of e d r).
Proof. unfold session_of. apply _. Defined.

(** [ORDER BY created_at DESC LIMIT 1]: the row with the greatest
    [created_at].  SQLite reaches the rows of an employee and date through
    the index of [UNIQUE(employee_id, date, time_in)], that is by ascending
    [time_in], and of several rows with the greatest [created_at] it keeps
    the first reached: the one with the smallest [time_in], texts being
    compared bytewise.  The scan goes through the table and makes the same
    choice. *)
Definition newer (best : option row) (r : row) : option row :=
  match best with
  | None => Some r
  | Some b =>
      if bool_decide (row_created_at b < row_created_at r)%Z
      then Some r
      else if bool_decide (row_created_at b = row_created_at r)
              && String.ltb (row_time_in r) (row_time_in b)
      then Some r
      else Some b
  end.

Definition select_latest (employee_id date : string) (db : list row)
  : option row :=
  foldl newer None (filter (session_of employee_id date) db).

(** [id INTEGER PRIMARY KEY AUTOINCREMENT]; no row is ever deleted. *)
Definition next_id (db : list row) : Z :=
  (1 + foldr Z.max 0 (row_id <$> db))%Z.

(** [UNIQUE(employee_id, date, time_in)] *)
Definition unique_conflict (employee_id date time_in : string)
    (db : list row) : Prop :=
  Exists (λ r, session_of employee_id date r ∧ row_time_in r = time_in) db.

Definition new_row (db : list row) (employee_id name date time_in status : string)
    (stamp : Z) : row :=
  {| row_id := next_id db;
     row_employee_id := employee_id;
     row_name := name;
     row_date := date;
     row_time_in := time_in;
     row_time_out := None;
     row_status := status;
     row_created_at := stamp |}.

(** [INSERT INTO attendance (employee_id, name, date, time_in, status)] *)
Definition insert_attendance (employee_id name date time_in status : string)
    (stamp : Z) (db : list row) : result (list row) :=
  if decide (unique_conflict employee_id date time_in db)
  then IntegrityError
  else Ok (db ++ [new_row db employee_id name date time_in status stamp]).

Definition set_time_out (t : string) (r : row) : row :=
  {| row_id := row_id r;
     row_employee_id := row_employee_id r;
     row_name := row_name r;
     row_date := row_date r;
     row_time_in := row_time_in r;
     row_time_out := Some t;
     row_status := row_status r;
     row_created_at := row_created_at r |}.

(** [UPDATE attendance SET time_out = ? WHERE id = ?] *)
Definition update_time_out (t : string) (attendance_id : Z) (db : list row)
  : list row :=
  (λ r, if decide (row_id r = attendance_id) then set_time_out t r else r)
    <$> db.

(** *** [mark_attendance] *)

Definition punch_in_record (clk : clock) (emp : employee) : attendance_record :=
  {| rec_employee_id := emp_employee_id emp;
     rec_name := emp_name emp;
     rec_date := date_isoformat (today clk);
     rec_time_in := strftime_HMS (current_time clk);
     rec_time_out := None;
     rec_status := "Present" |}.

Definition punch_out_record (clk : clock) (emp : employee) (time_in : string)
  : attendance_record :=
  {| rec_employee_id := emp_employee_id emp;
     rec_name := emp_name emp;
     rec_date := date_isoformat (today clk);
     rec_time_in := time_in;
     rec_time_out := Some (strftime_HMS (current_time clk));
     rec_status := "Present" |}.

Definition punch_in (clk : clock) (i : nat) (emp : employee) (db : list row)
  : result (list row * attendance_record) :=
  match insert_attendance (emp_employee_id emp) (emp_name emp)
          (date_isoformat (today clk)) (time_isoformat (current_time clk))
          "Present" (CURRENT_TIMESTAMP clk i) db with
  | Ok db' => Ok (db', punch_in_record clk emp)
  | IntegrityError => IntegrityError
  end.

(** The body of the loop [for emp in employee_data_list], for the event at
    position [i] of the batch. *)
Definition mark_one (clk : clock) (i : nat) (emp : employee) (db : list row)
  : result (list row * attendance_record) :=
  match select_latest (emp_employee_id emp) (date_isoformat (today clk)) db with
  | Some existing =>
      match row_time_out existing with
      | None =>
          Ok (update_time_out (time_isoformat (current_time clk))
                (row_id existing) db,
              punch_out_record clk emp (row_time_in existing))
      | Some _ => punch_in clk i emp db
      end
  | None => punch_in clk i emp db
  end.

(** The loop, from position [i] on, with [attendance_records] accumulated. *)
Fixpoint mark_each (clk : clock) (i : nat) (employee_data_list : list employee)
    (db : list row) (attendance_records : list attendance_record)
  : result (list row * list attendance_record) :=
  match employee_data_list with
  | [] => Ok (db, attendance_records)
  | emp :: rest =>
      match mark_one clk i emp db with
      | Ok (db', record) =>
          mark_each clk (S i) rest db' (attendance_records ++ [record])
      | IntegrityError => IntegrityError
      end
  end.

(** *** [save_to_excel] *)

(** What SQLite's [time()] and pandas read back from a time text.  Only the
    texts this program stores are recognised: [HH:MM:SS], possibly followed
    by a fraction of a second, which is dropped. *)
Definition digit_value (c : ascii) : option nat :=
  let n := nat_of_ascii c in
  if bool_decide (48 ≤ n ≤ 57) then Some (n - 48) else None.

Definition two_digits (s : string) : option (nat * string) :=
  match s with
  | String a (String b rest) =>
      d1 ← digit_value a; d2 ← digit_value b; Some (10 * d1 + d2, rest)
  | _ => None
  end.

Definition expect (c : ascii) (s : string) : option string :=
  match s with
  | String a rest => if decide (a = c) then Some rest else None
  | EmptyString => None
  end.

Fixpoint all_digits (s : string) : bool :=
  match s with
  | EmptyString => true
  | String a rest => bool_decide (is_Some (digit_value a)) && all_digits rest
  end.

Definition fraction_ok (s : string) : bool :=
  match s with
  | EmptyString => true
  | String c EmptyString => false
  | String c rest => bool_decide (c = "."%char) && all_digits rest
  end.

Definition parse_hms (s : string) : option (nat * nat * nat) :=
  '(h, s1) ← two_digits s;
  s2 ← expect ":" s1;
  '(m, s3) ← two_digits s2;
  s4 ← expect ":" s3;
  '(sec, s5) ← two_digits s4;
  if bool_decide (h < 24 ∧ m < 60 ∧ sec < 60) && fraction_ok s5
  then Some (h, m, sec) else None.

(** [time(time_in)], [time(time_out)]: NULL for NULL. *)
Definition sqlite_time (v : option string) : option string :=
  s ← v; '(h, m, sec) ← parse_hms s; Some (hms h m sec).

(** A row of the SELECT of [save_to_excel]. *)
Record selected := {
  sel_employee_id : string;
  sel_name : string;
  sel_date : string;
  sel_time_in : option string;
  sel_time_out : option string;
  sel_status : string
}.

Definition select_row (r : row) : selected :=
  {| sel_employee_id := row_employee_id r;
     sel_name := row_name r;
     sel_date := row_date r;
     sel_time_in := sqlite_time (Some (row_time_in r));
     sel_time_out := sqlite_time (row_time_out r);
     sel_status := row_status r |}.

(** [ORDER BY employee_id, time_in]: [time_in] is the alias of the result
    column; texts compare bytewise and NULL sorts first. *)
Definition null_le (a b : option string) : bool :=
  match a, b with
  | None, _ => true
  | Some _, None => false
  | Some x, Some y => String.leb x y
  end.

Definition order_by (a b : selected) : bool :=
  match String.compare (sel_employee_id a) (sel_employee_id b) with
  | Lt => true
  | Gt => false
  | Eq => null_le (sel_time_in a) (sel_time_in b)
  end.

Fixpoint insert_sorted (x : selected) (l : list selected) : list selected :=
  match l with
  | [] => [x]
  | y :: l' => if order_by x y then x :: l else y :: insert_sorted x l'
  end.

Definition sort_selected (l : list selected) : list selected :=
  foldr insert_sorted [] l.

Definition query_day (date : string) (db : list row) : list selected :=
  sort_selected
    (select_row <$> filter (λ r, row_date r = date) db).

(** [pd.to_datetime(...).dt.strftime('%H:%M:%S')]: a missing value stays
    missing (a blank cell). *)
Definition to_datetime_strftime (v : option string) : option string :=
  s ← v; '(h, m, sec) ← parse_hms s; Some (hms h m sec).

(** [pd.to_timedelta] of a text, in seconds; [None] when pandas raises. *)
Definition to_timedelta (s : string) : option Z :=
  '(h, m, sec) ← parse_hms s; Some (Z.of_nat (3600 * h + 60 * m + sec)).

(** [str(x).split()[-1]] for a [Timedelta] of [d] seconds: pandas prints
    [D days HH:MM:SS], and [D days +HH:MM:SS] when the days are negative. *)
Definition timedelta_last_word (d : Z) : string :=
  let days := (d / 86400)%Z in
  let rest := Z.to_nat (d mod 86400) in
  (if bool_decide (days < 0)%Z then "+" else "") +:+
  hms (rest / 3600) (rest `mod` 3600 / 60) (rest `mod` 60).

(** The [duration] cell of a row whose time cells are [time_in] and
    [time_out]; the outer [None] is an exception raised inside the [try]. *)
Definition duration_cell (time_in time_out : option string) : option string :=
  match time_out with
  | None => Some ""
  | Some t_out =>
      if bool_decide (t_out = "") then Some "" else
      d_out ← to_timedelta t_out;
      match time_in with
      | None => Some ""
      | Some t_in => d_in ← to_timedelta t_in; Some (timedelta_last_word (d_out - d_in))
      end
  end.

Record report_row := {
  rep_employee_id : string;
  rep_name : string;
  rep_date : string;
  rep_time_in : option string;
  rep_time_out : option string;
  rep_status : string;
  rep_duration : string
}.

Definition format_row (q : selected) : option report_row :=
  let time_in := to_datetime_strftime (sel_time_in q) in
  let time_out := to_datetime_strftime (sel_time_out q) in
  duration ← duration_cell time_in time_out;
  Some {| rep_employee_id := sel_employee_id q;
          rep_name := sel_name q;
          rep_date := sel_date q;
          rep_time_in := time_in;
          rep_time_out := time_out;
          rep_status := sel_status q;
          rep_duration := duration |}.

(** The sheet written by [df.to_excel]: the header and the rows. *)
Record report := { columns : list string; rows : list report_row }.

Definition build_report (date : string) (db : list row) : option report :=
  match query_day date db with
  | [] =>
      Some {| columns := ["employee_id"; "name"; "date"; "time_in"; "time_out";
                          "status"];
              rows := [] |}
  | df =>
      rs ← mapM format_row df;
      Some {| columns := ["employee_id"; "name"; "date"; "time_in"; "time_out";
                          "status"; "duration"];
              rows := rs |}
  end.

Definition excel_path (d : datetime_date) : string :=
  "attendance_logs/attendance_" +:+ date_isoformat d +:+ ".xlsx".

(** The files of [attendance_logs]; the writer replaces the file at
    [excel_path], and an exception inside the [try] leaves the folder as
    it was. *)
Definition save_to_excel (today : datetime_date) (db : list row)
    (files : gmap string report) : gmap string report :=
  match build_report (date_isoformat today) db with
  | Some rep => <[excel_path today := rep]> files
  | None => files
  end.

(** *** The manager: the table and the report folder *)

Record store := {
  attendance : list row;
  attendance_logs : gmap string report
}.

Definition mark_attendance (clk : clock) (employee_data_list : list employee)
    (st : store) : result (store * list attendance_record) :=
  match mark_each clk 0 employee_data_list (attendance st) [] with
  | Ok (db', attendance_records) =>
      Ok ({| attendance := db';
             attendance_logs :=
               match attendance_records with
               | [] => attendance_logs st
               | _ => save_to_excel (today_on_save clk) db' (attendance_logs st)
               end |},
          attendance_records)
  | IntegrityError => IntegrityError
  end.

(** *** [get_all_attendance] *)

(** [if start_date and end_date]: both given and not empty. *)
Definition truthy (v : option string) : bool :=
  match v with
  | Some s => negb (bool_decide (s = ""))
  | None => false
  end.

(** [date BETWEEN ? AND ?].  The column holds the texts of
    [date.isoformat()]; a bound that is such a text, or any text that does
    not read as a number, is compared with them as a text, bytewise. *)
Definition between (lo hi x : string) : bool :=
  String.leb lo x && String.leb x hi.

(** [ORDER BY date DESC, employee_id, time_in] *)
Definition order_by_date_desc (a b : selected) : bool :=
  match String.compare (sel_date b) (sel_date a) with
  | Lt => true
  | Gt => false
  | Eq => order_by a b
  end.

Fixpoint insert_by (le : selected → selected → bool) (x : selected)
    (l : list selected) : list selected :=
  match l with
  | [] => [x]
  | y :: l' => if le x y then x :: l else y :: insert_by le x l'
  end.

Definition sort_by (le : selected → selected → bool) (l : list selected)
  : list selected :=
  foldr (insert_by le) [] l.

Definition get_all_attendance (start_date end_date : option string)
    (db : list row) : list selected :=
  if truthy start_date && truthy end_date
  then
    sort_by order_by_date_desc
      (select_row <$>
       filter (λ r, between (default "" start_date) (default "" end_date)
                      (row_date r) = true) db)
  else sort_by order_by_date_desc (select_row <$> db).

End attendance_manager.

(** * app.py *)
Module app.

(** A face embedding: the list of floats returned by DeepFace. *)
Definition Embedding := list float.

(** A value of the dictionary [employees_cache]. *)
Record cache_entry := {
  ce_employee_id : string;
  ce_name : string;
  ce_department : string;
  ce_position : string;
  ce_embedding : Embedding
}.

(** An element of [matches]. *)
Record face_match := {
  employee_id : string;
  name : string;
  similarity : float;
  department : string;
  position : string
}.

(** The cosine of two embeddings of one length, as all the embeddings of
    one DeepFace model are ([np.dot] raises on two lengths).  The products
    are summed from left to right, each operation rounded to binary64;
    numpy may group the sum otherwise, so the last bit is not vouched
    for, and the statements on the matcher take the score as a
    parameter. *)
Definition dot (a b : Embedding) : float :=
  foldl (λ acc xy, PrimFloat.add acc (PrimFloat.mul xy.1 xy.2))
        PrimFloat.zero (zip a b).

Definition norm (a : Embedding) : float := PrimFloat.sqrt (dot a a).

Definition cosine_similarity (a b : Embedding) : float :=
  PrimFloat.div (dot a b) (PrimFloat.mul (norm a) (norm b)).

(** *** [compare_faces] *)
Section compare_faces.
(** The arithmetic of [np.dot] and [np.linalg.norm] is numpy's: the
    matcher is embedded over any function computing the score, of which
    [cosine_similarity] is one. *)
Variable score : Embedding → Embedding → float.

(** [employees_cache], a dictionary iterated in insertion order. *)
Variable employees_cache : list (string * cache_entry).

(** One turn of the inner loop on the pair [(best_match, best_similarity)]. *)
Definition scan (new_embedding : Embedding)
    (best : option face_match * float) (item : string * cache_entry)
  : option face_match * float :=
  let '(emp_id, emp_data) := item in
  let similarity := score new_embedding (ce_embedding emp_data) in
  if PrimFloat.ltb best.2 similarity
  then (Some {| employee_id := emp_id;
                name := ce_name emp_data;
                similarity := similarity;
                department := ce_department emp_data;
                position := ce_position emp_data |},
        similarity)
  else best.

Definition best_match (new_embedding : Embedding) : option face_match :=
  (foldl (scan new_embedding) (None, PrimFloat.zero) employees_cache).1.

Fixpoint compare_faces (new_embeddings : list Embedding) (threshold : float)
  : list face_match :=
  match new_embeddings with
  | [] => []
  | new_embedding :: rest =>
      match best_match new_embedding with
      | Some m =>
          if PrimFloat.ltb threshold (similarity m)
          then m :: compare_faces rest threshold
          else compare_faces rest threshold
      | None => compare_faces rest threshold
      end
  end.
End compare_faces.

(** *** The route [/api/mark_attendance], from the embeddings on *)

(** The loop under [# Remove duplicates], with [seen_ids] threaded. *)
Fixpoint remove_duplicates (seen_ids : gset string) (matches : list face_match)
  : list face_match :=
  match matches with
  | [] => []
  | m :: rest =>
      if decide (employee_id m ∈ seen_ids)
      then remove_duplicates seen_ids rest
      else m :: remove_duplicates ({[employee_id m]} ∪ seen_ids) rest
  end.

Definition unique_matches (matches : list face_match) : list face_match :=
  remove_duplicates ∅ matches.

Definition attendance_data (unique : list face_match)
  : list attendance_manager.employee :=
  (λ m, {| attendance_manager.emp_employee_id := employee_id m;
           attendance_manager.emp_name := name m;
           attendance_manager.emp_department := department m;
           attendance_manager.emp_position := position m |}) <$> unique.

(** The threshold passed by the route: the double written [0.65]. *)
Definition route_threshold : float := 0x1.4cccccccccccdp-1%float.

Inductive attendance_response :=
  | NoFacesDetected
  | Marked (recognized_faces : list face_match) (total_faces_detected : nat)
      (attendance_records : list attendance_manager.attendance_record)
  | AttendanceFailed.

Definition mark_attendance (score : Embedding → Embedding → float)
    (clk : attendance_manager.clock) (embeddings : list Embedding)
    (employees_cache : list (string * cache_entry))
    (st : attendance_manager.store)
  : attendance_response * attendance_manager.store :=
  match embeddings with
  | [] => (NoFacesDetected, st)
  | _ =>
      let matches := compare_faces score employees_cache embeddings route_threshold in
      let unique := unique_matches matches in
      match unique with
      | [] => (Marked unique (length embeddings) [], st)
      | _ =>
          match attendance_manager.mark_attendance clk (attendance_data unique) st with
          | Ok (st', attendance_records) =>
              (Marked unique (length embeddings) attendance_records, st')
          | IntegrityError => (AttendanceFailed, st)
          end
      end
  end.

(** *** The route [/api/register_employee] *)

(** A row of the table [employees]. *)
Record Employee := {
  Employee_employee_id : string;
  Employee_name : string;
  Employee_department : string;
  Employee_position : string;
  face_image_path : string;
  face_encoding_path : string;
  registered_at : Z
}.

(** The JSON body; a missing key reads as the empty text. *)
Record registration := {
  data_employee_id : string;
  data_name : string;
  data_department : string;
  data_position : string;
  data_image : string
}.

Record response := { success : bool; message : string }.

Definition FACE_FOLDER : string := "faces".

(** [os.path.join(FACE_FOLDER, filename)] *)
Definition path_join (folder filename : string) : string :=
  match filename with
  | String c _ =>
      if bool_decide (c = "/"%char) then filename
      else folder +:+ "/" +:+ filename
  | EmptyString => folder +:+ "/"
  end.

(** [while os.path.exists(path): path = candidate(counter); counter += 1].
    Every turn meets a file that exists, so the loop takes no more turns
    than the folder has files; [fuel] is one more than that. *)
Fixpoint next_free (fuel : nat) (exists_ : string → bool)
    (candidate : nat → string) (counter : nat) (path : string) : string :=
  match fuel with
  | 0 => path
  | S fuel' =>
      if exists_ path
      then next_free fuel' exists_ candidate (S counter) (candidate counter)
      else path
  end.

Section register_employee.
(** A decoded frame, and the collaborators the route calls:
    [decode_image] ([None] for an image that does not decode),
    [DeepFace.represent] with [enforce_detection=True] ([None] when it
    raises because no face is found), [sanitize_filename] and [str.strip]
    (regular expressions and white space over Unicode text), whether the
    file system accepts a write at a path, and the text of the exception
    when it does not.  Nothing below depends on what they compute. *)
Context {image : Type}.
Variable decode_image : string → option image.
Variable represent : image → option Embedding.
Variable sanitize_filename : string → string.
Variable strip : string → string.
Variable writable : string → bool.
Variable write_error : string → string.

(** What the folder [faces] holds. *)
Inductive file :=
  | Jpg (frame : image)
  | Npy (embedding : Embedding).

(** The state the route works on: the folder, the table [employees], and
    the dictionary [employees_cache]. *)
Record state := {
  faces : gmap string file;
  employees : list Employee;
  employees_cache : list (string * cache_entry)
}.

Definition path_exists (files : gmap string file) (path : string) : bool :=
  bool_decide (is_Some (files !! path)).

Definition free_path (files : gmap string file) (stem ext : string) : string :=
  next_free (S (size files)) (path_exists files)
    (λ counter, path_join FACE_FOLDER (stem +:+ "_" +:+ pretty counter +:+ ext))
    1 (path_join FACE_FOLDER (stem +:+ ext)).

(** [cv2.imwrite]: returns without writing where the path is refused. *)
Definition imwrite (path : string) (frame : image) (files : gmap string file)
  : gmap string file :=
  if writable path then <[path := Jpg frame]> files else files.

(** [extract_face_embedding]: DeepFace reads the file at [image_path]; any
    exception is caught and gives [None]. *)
Definition extract_face_embedding (image_path : string)
    (files : gmap string file) : option Embedding :=
  match files !! image_path with
  | Some (Jpg frame) => represent frame
  | _ => None
  end.

(** [employees_cache[employee_id] = entry] *)
Fixpoint dict_set (key : string) (entry : cache_entry)
    (d : list (string * cache_entry)) : list (string * cache_entry) :=
  match d with
  | [] => [(key, entry)]
  | (k, v) :: d' =>
      if decide (k = key) then (key, entry) :: d'
      else (k, v) :: dict_set key entry d'
  end.

Definition failure (msg : string) : response :=
  {| success := false; message := msg |}.

Definition register_employee (now : Z) (data : registration) (st : state)
  : response * state :=
  let employee_id := strip (data_employee_id data) in
  let name := strip (data_name data) in
  let department := strip (data_department data) in
  let position := strip (data_position data) in
  let image_data := data_image data in
  if bool_decide (employee_id = "" ∨ name = "" ∨ image_data = "")
  then (failure "Missing required fields", st)
  else if bool_decide (Exists (λ e, Employee_employee_id e = employee_id)
                         (employees st))
  then (failure "Employee ID already exists", st)
  else
    match decode_image image_data with
    | None => (failure "Invalid image", st)
    | Some frame =>
        let sanitized_name := sanitize_filename name in
        let stem := employee_id +:+ "_" +:+ sanitized_name in
        let face_path := free_path (faces st) stem ".jpg" in
        let files := imwrite face_path frame (faces st) in
        match extract_face_embedding face_path files with
        | None =>
            let files :=
              if path_exists files face_path then delete face_path files
              else files in
            (failure "No face detected. Please ensure face is clearly visible.",
             {| faces := files;
                employees := employees st;
                employees_cache := employees_cache st |})
        | Some embedding =>
            let embedding_path := free_path files stem ".npy" in
            if negb (writable embedding_path) then
              (failure ("Registration failed: " +:+ write_error embedding_path),
               {| faces := files;
                  employees := employees st;
                  employees_cache := employees_cache st |})
            else
              ({| success := true;
                  message := "Employee " +:+ name +:+ " registered successfully!" |},
               {| faces := <[embedding_path := Npy embedding]> files;
                  employees :=
                    employees st ++
                    [{| Employee_employee_id := employee_id;
                        Employee_name := name;
                        Employee_department := department;
                        Employee_position := position;
                        face_image_path := face_path;
                        face_encoding_path := embedding_path;
                        registered_at := now |}];
                  employees_cache :=
                    dict_set employee_id
                      {| ce_employee_id := employee_id;
                         ce_name := name;
                         ce_department := department;
                         ce_position := position;
                         ce_embedding := embedding |}
                      (employees_cache st) |})
        end
    end.
(** [load_employees_to_cache]: the dictionary is emptied and filled again
    from the table [employees]; an employee without an encoding path, or
    whose file is missing or does not load as an array, is skipped. *)
Definition load_entry (files : gmap string file)
    (cache : list (string * cache_entry)) (emp : Employee)
  : list (string * cache_entry) :=
  if bool_decide (face_encoding_path emp = "") then cache else
  match files !! face_encoding_path emp with
  | Some (Npy embedding) =>
      dict_set (Employee_employee_id emp)
        {| ce_employee_id := Employee_employee_id emp;
           ce_name := Employee_name emp;
           ce_department := Employee_department emp;
           ce_position := Employee_position emp;
           ce_embedding := embedding |}
        cache
  | _ => cache
  end.

Definition load_employees_to_cache (st : state) : state :=
  {| faces := faces st;
     employees := employees st;
     employees_cache := foldl (load_entry (faces st)) [] (employees st) |}.

(** The route [/api/check_employee]. *)
Record availability := { available : bool; availability_message : string }.

Definition check_employee (data_employee_id : string) (st : state)
  : availability :=
  let employee_id := strip data_employee_id in
  if bool_decide (employee_id = "")
  then {| available := false; availability_message := "Employee ID required" |}
  else if bool_decide (Exists (λ e, Employee_employee_id e = employee_id)
                         (employees st))
  then {| available := false;
          availability_message := "Employee ID already exists" |}
  else {| available := true;
          availability_message := "Employee ID available" |}.
End register_employee.

(** *** The route [/api/download_attendance_file/<filename>] *)

(** ['..' in filename] *)
Fixpoint contains_dotdot (s : string) : bool :=
  match s with
  | EmptyString => false
  | String a rest =>
      (bool_decide (a = "."%char) &&
       match rest with
       | String b _ => bool_decide (b = "."%char)
       | EmptyString => false
       end)
      || contains_dotdot rest
  end.

(** [filename.startswith('/')] *)
Definition starts_with_slash (s : string) : bool :=
  match s with
  | String a _ => bool_decide (a = "/"%char)
  | EmptyString => false
  end.

(** [filename.endswith(suffix)] *)
Fixpoint ends_with (suffix s : string) : bool :=
  if bool_decide (s = suffix) then true
  else match s with
       | String _ rest => ends_with suffix rest
       | EmptyString => false
       end.

Definition attendance_logs_folder : string := "attendance_logs".

Inductive download :=
  | SendFile (path : string) (content : attendance_manager.report)
      (download_name : string)
  | DownloadRefused (message : string).

Definition download_attendance_file (filename : string)
    (files : gmap string attendance_manager.report) : download :=
  if contains_dotdot filename || starts_with_slash filename
  then DownloadRefused "Invalid filename"
  else
    let filepath := path_join attendance_logs_folder filename in
    match files !! filepath with
    | Some content =>
        if ends_with ".xlsx" filename
        then SendFile filepath content filename
        else DownloadRefused "File not found"
    | None => DownloadRefused "File not found"
    end.

(** The route [/api/download_today_attendance]. *)
Definition download_today_attendance (today : attendance_manager.datetime_date)
    (files : gmap string attendance_manager.report) : download :=
  let excel_filename :=
    "attendance_" +:+ attendance_manager.date_isoformat today +:+ ".xlsx" in
  let excel_path := path_join attendance_logs_folder excel_filename in
  match files !! excel_path with
  | Some content => SendFile excel_path content excel_filename
  | None => DownloadRefused "No attendance records for today"
  end.

End app.

(** * Vocabulary of the statements *)

Import attendance_manager.

(** The match [compare_faces] builds from the entry [(emp_id, emp_data)] of
    the gallery for the face [new_embedding]. *)
Definition entry_match (score : app.Embedding → app.Embedding → float)
    (new_embedding : app.Embedding) (item : string * app.cache_entry)
  : app.face_match :=
  {| app.employee_id := item.1;
     app.name := app.ce_name item.2;
     app.similarity := score new_embedding (app.ce_embedding item.2);
     app.department := app.ce_department item.2;
     app.position := app.ce_position item.2 |}.

(** The sessions of an employee on a date that have no [time_out]. *)
Definition open_sessions (employee_id date : string) (db : list row)
  : list row :=
  filter (λ r, session_of employee_id date r ∧ row_time_out r = None) db.

Definition at_most_one_open (db : list row) : Prop :=
  ∀ employee_id date, length (open_sessions employee_id date db) ≤ 1.

(** The storage clock is fresh for a batch when the reading taken for each
    event is later than [created_at] of every session the employee already
    has on that date. *)
Definition fresh_stamps (clk : clock) (batch : list employee) (db : list row)
  : Prop :=
  ∀ i emp r,
    batch !! i = Some emp → r ∈ db →
    session_of (emp_employee_id emp) (date_isoformat (today clk)) r →
    (row_created_at r < CURRENT_TIMESTAMP clk i)%Z.

Definition any_clock (clk : clock) (batch : list employee) (db : list row)
  : Prop := True.

Definition empty_store : store :=
  {| attendance := []; attendance_logs := ∅ |}.

(** The store after a call: a call that raises commits nothing. *)
Definition after (clk : clock) (batch : list employee) (st : store) : store :=
  match mark_attendance clk batch st with
  | Ok (st', _) => st'
  | IntegrityError => st
  end.

(** The stores the manager can be in, starting from an empty table, when
    the clocks of every call satisfy [admissible]. *)
Inductive reachable (admissible : clock → list employee → list row → Prop)
  : store → Prop :=
  | reachable_empty : reachable admissible empty_store
  | reachable_call clk batch st :
      reachable admissible st →
      admissible clk batch (attendance st) →
      reachable admissible (after clk batch st).

(** A row with another [time_in], all else equal. *)
Definition with_time_in (t : string) (r : row) : row :=
  {| row_id := row_id r;
     row_employee_id := row_employee_id r;
     row_name := row_name r;
     row_date := row_date r;
     row_time_in := t;
     row_time_out := row_time_out r;
     row_status := row_status r;
     row_created_at := row_created_at r |}.

(** A duration of [d] seconds, less than a day, written [HH:MM:SS]. *)
Definition hms_of_seconds (d : nat) : string :=
  hms (d / 3600) (d `mod` 3600 / 60) (d `mod` 60).

Definition seconds_of (h m s : nat) : nat := 3600 * h + 60 * m + s.

Definition valid_hms (h m s : nat) : Prop := h < 24 ∧ m < 60 ∧ s < 60.

(** What the inner loop of [compare_faces] knows about the pair
    [(best_match, best_similarity)]. *)
Definition scan_state_ok (score : app.Embedding → app.Embedding → float)
    (cache : list (string * app.cache_entry)) (e : app.Embedding)
    (best : option app.face_match * float) : Prop :=
  match best.1 with
  | None => best.2 = PrimFloat.zero
  | Some m =>
      app.similarity m = best.2 ∧
      PrimFloat.ltb PrimFloat.zero best.2 = true ∧
      ∃ item, item ∈ cache ∧ m = entry_match score e item
  end.

(** The invariant behind the uniqueness of the open session: ids are
    distinct, and an open session was created strictly after every other
    session of its employee and date. *)
Definition ledger_ok (db : list row) : Prop :=
  NoDup (row_id <$> db) ∧
  ∀ r r', r ∈ db → r' ∈ db → row_time_out r = None →
          session_of (row_employee_id r) (row_date r) r' → r' ≠ r →
          (row_created_at r' < row_created_at r)%Z.

(** During a batch a row is either one the table had before the call, up
    to its [time_out], or one inserted by the call. *)
Definition traced (clk : clock) (db0 db : list row) : Prop :=
  ∀ r, r ∈ db →
    (∃ r0, r0 ∈ db0 ∧ row_employee_id r0 = row_employee_id r ∧
           row_date r0 = row_date r ∧ row_created_at r0 = row_created_at r) ∨
    row_time_in r = time_isoformat (current_time clk).

(** [r'] does not come before [r] in the choice of the latest session: it
    was created earlier, or in the same second with a [time_in] that is
    not smaller. *)
Definition not_later (r' r : row) : Prop :=
  (row_created_at r' < row_created_at r)%Z ∨
  (row_created_at r' = row_created_at r ∧
   String.leb (row_time_in r) (row_time_in r') = true).

(** * Sample data for the instances *)

Definition sample_day : datetime_date :=
  {| year := 2026; month := 11; day := 3 |}.

(** A call at [h:m:s] local time, with the storage clock reading [stamp]. *)
Definition sample_clock (h m s : nat) (stamp : Z) : clock :=
  {| today := sample_day;
     current_time := {| hour := h; minute := m; second := s; microsecond := 0 |};
     CURRENT_TIMESTAMP := λ _, stamp;
     today_on_save := sample_day |}.

Definition E1 : employee :=
  {| emp_employee_id := "E1"; emp_name := "Ann";
     emp_department := "Lab"; emp_position := "Engineer" |}.

(** E1 punched in at nine. *)
Definition store_in : store := after (sample_clock 9 0 0 100) [E1] empty_store.

(** E1 punched in at nine and out at five. *)
Definition store_in_out : store := after (sample_clock 17 0 0 200) [E1] store_in.

(** The storage clock, which read 100 and 110 during E1's first session,
    is set back and reads 50 and 60 at the two later visits: both open a
    session. *)
Definition store_clock_set_back : store :=
  after (sample_clock 17 0 0 60) [E1]
    (after (sample_clock 13 0 0 50) [E1]
       (after (sample_clock 12 0 0 110) [E1] store_in)).

(** The local clock is set back between punch-in and punch-out. *)
Definition store_out_before_in : store :=
  after (sample_clock 9 0 0 200) [E1]
    (after (sample_clock 17 0 0 100) [E1] empty_store).

(** A call at [h:m:s] and [us] microseconds local time, with the storage
    clock reading [stamp]. *)
Definition sample_clock_us (h m s us : nat) (stamp : Z) : clock :=
  {| today := sample_day;
     current_time := {| hour := h; minute := m; second := s; microsecond := us |};
     CURRENT_TIMESTAMP := λ _, stamp;
     today_on_save := sample_day |}.

(** Three visits of E1 within one second of the storage clock: in, out
    and in again. *)
Definition store_same_second : store :=
  after (sample_clock_us 9 0 0 (700 * 1000) 100) [E1]
    (after (sample_clock_us 9 0 0 (400 * 1000) 100) [E1]
       (after (sample_clock_us 9 0 0 (100 * 1000) 100) [E1] empty_store)).

(** E1 punched in at half past one and out a quarter of an hour later;
    the local clock is then set back by an hour. *)
Definition store_before_clock_back : store :=
  after (sample_clock 1 45 0 1000) [E1]
    (after (sample_clock 1 30 0 100) [E1] empty_store).

(** The [time_in] values of two sessions exchanged. *)
Definition exchanged (first second : row) (r : row) : string :=
  if decide (row_id r = row_id first) then row_time_in second
  else row_time_in first.

(** Two sessions whose [time_in] values are in the reverse of the order of
    creation. *)
Definition session_first : row :=
  {| row_id := 1; row_employee_id := "E1"; row_name := "Ann";
     row_date := "2026-11-03"; row_time_in := "10:00:00";
     row_time_out := Some "10:30:00"; row_status := "Present";
     row_created_at := 100 |}.

Definition session_second : row :=
  {| row_id := 2; row_employee_id := "E1"; row_name := "Ann";
     row_date := "2026-11-03"; row_time_in := "09:00:00";
     row_time_out := None; row_status := "Present";
     row_created_at := 200 |}.

(** A gallery of two employees and the faces of a frame. *)
Definition entry_A : string * app.cache_entry :=
  ("A", {| app.ce_employee_id := "A"; app.ce_name := "Ann";
           app.ce_department := "Lab"; app.ce_position := "Engineer";
           app.ce_embedding := [4; 3]%float |}).

Definition entry_B : string * app.cache_entry :=
  ("B", {| app.ce_employee_id := "B"; app.ce_name := "Bob";
           app.ce_department := "Lab"; app.ce_position := "Technician";
           app.ce_embedding := [-3; -4]%float |}).

Definition sample_gallery : list (string * app.cache_entry) :=
  [entry_A; entry_B].

Definition sample_face : app.Embedding := [3; 4]%float.

Definition match_A : app.face_match :=
  entry_match app.cosine_similarity sample_face entry_A.

(** A registration request whose image shows no face, for collaborators
    that decode every image and find no face in any. *)
Definition sample_registration : app.registration :=
  {| app.data_employee_id := "E1"; app.data_name := "Ann";
     app.data_department := "Lab"; app.data_position := "Engineer";
     app.data_image := "data:image/jpeg;base64,AAAA" |}.

Definition sample_state : app.state (image:=string) :=
  {| app.faces := ∅; app.employees := []; app.employees_cache := [] |}.

(** * Vocabulary of the further properties *)

(** The constraints of the table [attendance]: the primary key, and
    [UNIQUE(employee_id, date, time_in)]. *)
Definition table_ok (db : list row) : Prop :=
  NoDup (row_id <$> db) ∧
  NoDup ((λ r, (row_employee_id r, row_date r, row_time_in r)) <$> db).

(** [save_to_excel] reads the same date as [mark_attendance] did. *)
Definition same_day (clk : clock) (batch : list employee) (db : list row)
  : Prop := today_on_save clk = today clk.

(** Every report of the folder is the one a rebuild from the table gives. *)
Definition reports_in_sync (st : store) : Prop :=
  ∀ d rep,
    attendance_logs st !! excel_path d = Some rep →
    build_report (date_isoformat d) (attendance st) = Some rep.

(** The order of the rows of a report: by employee id, bytewise, and for
    one employee by the [time_in] cell, a blank one first. *)
Definition report_order (a b : report_row) : Prop :=
  String.leb (rep_employee_id a) (rep_employee_id b) = true ∧
  (rep_employee_id a = rep_employee_id b →
   null_le (rep_time_in a) (rep_time_in b) = true).

(** What the report shows of a session. *)
Definition shows (x : row) (r : report_row) : Prop :=
  rep_employee_id r = row_employee_id x ∧
  rep_name r = row_name x ∧
  rep_date r = row_date x ∧
  rep_status r = row_status x ∧
  rep_time_in r = sqlite_time (Some (row_time_in x)) ∧
  rep_time_out r = sqlite_time (row_time_out x).

(** The entry of the gallery for an employee and an embedding. *)
Definition gallery_entry (employee_id name department position : string)
    (embedding : app.Embedding) : app.cache_entry :=
  {| app.ce_employee_id := employee_id;
     app.ce_name := name;
     app.ce_department := department;
     app.ce_position := position;
     app.ce_embedding := embedding |}.

(** The states of the registration route, starting with an empty folder,
    an empty table and an empty gallery. *)
Inductive registered {image : Type}
    (decode_image : string → option image)
    (represent : image → option app.Embedding)
    (sanitize_filename strip : string → string)
    (writable : string → bool) (write_error : string → string)
  : app.state (image:=image) → Prop :=
  | registered_empty :
      registered decode_image represent sanitize_filename strip writable
        write_error
        {| app.faces := ∅; app.employees := []; app.employees_cache := [] |}
  | registered_call now data st :
      registered decode_image represent sanitize_filename strip writable
        write_error st →
      registered decode_image represent sanitize_filename strip writable
        write_error
        (app.register_employee decode_image represent sanitize_filename strip
           writable write_error now data st).2.

(** Further sample data: a third employee with the embedding of the
    first, and collaborators of the registration that find a face in
    every image. *)
Definition entry_C : string * app.cache_entry :=
  ("C", {| app.ce_employee_id := "C"; app.ce_name := "Cid";
           app.ce_department := "Lab"; app.ce_position := "Engineer";
           app.ce_embedding := [4; 3]%float |}).

Definition sample_decode (image_data : string) : option string :=
  Some image_data.

Definition sample_represent (frame : string) : option app.Embedding :=
  Some [3; 4]%float.

(** A file system that accepts images and refuses everything else. *)
Definition images_only (path : string) : bool := app.ends_with ".jpg" path.

Definition closed_session : row :=
  {| row_id := 1; row_employee_id := "E1"; row_name := "Ann";
     row_date := "2026-11-03"; row_time_in := "09:00:00";
     row_time_out := Some "17:00:00"; row_status := "Present";
     row_created_at := 100 |}.
(** ** Comparison of doubles *)
Section float_order.
Local Ltac by_compare :=
  repeat match goal with
    | |- context [Z.compare ?a ?b] => destruct (Z.compare_spec a b)
    | |- context [Pos.compare_cont Eq ?a ?b] =>
        change (Pos.compare_cont Eq a b) with (Pos.compare a b);
        destruct (Pos.compare_spec a b)
    end;
  simpl; try discriminate; try reflexivity; try lia.

Lemma SFltb_irrefl x : SFltb x x = false.
Proof.
  unfold SFltb, SFcompare.
  destruct x as [s|s| |s m e]; try destruct s; by_compare.
Qed.

Lemma SFeqb_not_SFltb x y : SFeqb x y = true → SFltb y x = false.
Proof.
  unfold SFeqb, SFltb, SFcompare.
  destruct x as [s|s| |s m e], y as [s'|s'| |s' m' e'];
    try destruct s; try destruct s'; by_compare.
Qed.

Lemma SFltb_trans x y z :
  SFltb x y = true → SFltb y z = true → SFltb x z = true.
Proof.
  unfold SFltb, SFcompare.
  destruct x as [s|s| |s m e], y as [s'|s'| |s' m' e'],
    z as [s''|s''| |s'' m'' e''];
    try destruct s; try destruct s'; try destruct s'';
    simpl; try discriminate; try reflexivity; by_compare.
Qed.

Lemma float_ltb_irrefl (x : float) : PrimFloat.ltb x x = false.
Proof. rewrite FloatAxioms.ltb_spec. apply SFltb_irrefl. Qed.

Lemma float_eqb_not_ltb (s t : float) :
  PrimFloat.eqb s t = true → PrimFloat.ltb t s = false.
Proof. rewrite FloatAxioms.eqb_spec, FloatAxioms.ltb_spec. apply SFeqb_not_SFltb. Qed.

Lemma float_ltb_trans (x y z : float) :
  PrimFloat.ltb x y = true → PrimFloat.ltb y z = true →
  PrimFloat.ltb x z = true.
Proof. rewrite !FloatAxioms.ltb_spec. apply SFltb_trans. Qed.
End float_order.
(** * The matcher *)
Section matcher.
Import app.
Variable score : Embedding → Embedding → float.
Variable cache : list (string * cache_entry).

Local Abbreviation scan_state_ok := (scan_state_ok score cache).

Lemma scan_ok e best item :
  item ∈ cache → scan_state_ok e best → scan_state_ok e (scan score e best item).
Proof.
  intros Hin Hbest. destruct item as [k d]. unfold scan.
  destruct (PrimFloat.ltb best.2 (score e (ce_embedding d))) eqn:Hlt; [|done].
  unfold scan_state_ok; simpl. split; [done|]. split.
  - unfold scan_state_ok in Hbest. destruct best as [[m|] b]; simpl in *.
    + destruct Hbest as (_ & Hpos & _). by eapply float_ltb_trans.
    + by subst b.
  - by exists (k, d).
Qed.

Lemma foldl_scan_ok e l best :
  (∀ item, item ∈ l → item ∈ cache) →
  scan_state_ok e best → scan_state_ok e (foldl (scan score e) best l).
Proof.
  revert best. induction l as [|item l IH]; intros best Hl Hbest; [done|].
  simpl. apply IH.
  - intros it Hit. apply Hl. by right.
  - apply scan_ok; [|done]. apply Hl. by left.
Qed.

Lemma scan_dominates e best item x :
  PrimFloat.ltb best.2 x = false →
  PrimFloat.ltb (scan score e best item).2 x = false.
Proof.
  intros Hx. destruct item as [k d]. unfold scan.
  destruct (PrimFloat.ltb best.2 (score e (ce_embedding d))) eqn:Hlt; [|done].
  simpl. destruct (PrimFloat.ltb (score e (ce_embedding d)) x) eqn:Hs; [|done].
  rewrite (float_ltb_trans _ _ _ Hlt Hs) in Hx. done.
Qed.

Lemma foldl_scan_dominates e l best x :
  PrimFloat.ltb best.2 x = false →
  PrimFloat.ltb (foldl (scan score e) best l).2 x = false.
Proof.
  revert best. induction l as [|item l IH]; intros best Hx; [done|].
  simpl. by apply IH, scan_dominates.
Qed.

Lemma foldl_scan_best e l best item :
  item ∈ l →
  PrimFloat.ltb (foldl (scan score e) best l).2
    (score e (ce_embedding item.2)) = false.
Proof.
  revert best. induction l as [|it l IH]; intros best Hin.
  - by apply elem_of_nil in Hin.
  - apply elem_of_cons in Hin as [Heq|Hin]; [subst it|by apply IH].
    simpl. apply foldl_scan_dominates. destruct item as [k d]. unfold scan. simpl.
    destruct (PrimFloat.ltb best.2 (score e (ce_embedding d))) eqn:Hlt; [|done].
    simpl. apply float_ltb_irrefl.
Qed.

(** The best match of a face comes from an entry of the gallery, carries
    its score, which is positive and which no other entry exceeds. *)
Lemma best_match_spec e m :
  best_match score cache e = Some m →
  PrimFloat.ltb PrimFloat.zero (similarity m) = true ∧
  (∃ item, item ∈ cache ∧ m = entry_match score e item) ∧
  (∀ item, item ∈ cache →
     PrimFloat.ltb (similarity m) (score e (ce_embedding item.2)) = false).
Proof.
  unfold best_match. intros Hm.
  pose proof (foldl_scan_ok e cache (None, PrimFloat.zero) (λ _ H, H) eq_refl) as Hok.
  unfold scan_state_ok in Hok. rewrite Hm in Hok.
  destruct Hok as (Hsim & Hpos & Hitem). rewrite Hsim. split_and!; try done.
  intros item Hin. by apply foldl_scan_best.
Qed.

Lemma elem_of_compare_faces embs t m :
  m ∈ compare_faces score cache embs t ↔
  ∃ e, e ∈ embs ∧ best_match score cache e = Some m ∧
       PrimFloat.ltb t (similarity m) = true.
Proof.
  induction embs as [|e embs IH]; simpl.
  - split; [by intros ?%elem_of_nil|]. by intros (e & ?%elem_of_nil & _).
  - destruct (best_match score cache e) as [m0|] eqn:Hbest.
    + destruct (PrimFloat.ltb t (similarity m0)) eqn:Hlt.
      * rewrite elem_of_cons, IH. split.
        -- intros [->|(e' & ? & ? & ?)]; [exists e|exists e']; split_and!; try done;
             first [by left | by right].
        -- intros (e' & [->|?]%elem_of_cons & Hb & Ht); [left; congruence|right; eauto].
      * rewrite IH. split.
        -- intros (e' & ? & ? & ?). exists e'. split_and!; try done. by right.
        -- intros (e' & [->|?]%elem_of_cons & Hb & Ht); [congruence|eauto].
    + rewrite IH. split.
      * intros (e' & ? & ? & ?). exists e'. split_and!; try done. by right.
      * intros (e' & [->|?]%elem_of_cons & Hb & Ht); [congruence|eauto].
Qed.
End matcher.

Section matcher_claims.
Import app.
Variable score : Embedding → Embedding → float.
Variable cache : list (string * cache_entry).

Lemma compare_faces_app embs1 embs2 t :
  compare_faces score cache (embs1 ++ embs2) t =
  compare_faces score cache embs1 t ++ compare_faces score cache embs2 t.
Proof.
  induction embs1 as [|e embs1 IH]; simpl; [done|].
  destruct (best_match score cache e) as [m|]; [|done].
  destruct (PrimFloat.ltb t (similarity m)); [|done].
  by rewrite IH.
Qed.

(** C1: a match is returned for a face only when the best score found in
    the gallery for that face is strictly greater than the threshold; a
    face whose best score equals the threshold contributes nothing to the
    list, which is otherwise returned as usual. *)
Theorem compare_faces_strictly_above_threshold
    (embs : list Embedding) (t : float) :
  (∀ m, m ∈ compare_faces score cache embs t →
     ∃ e, e ∈ embs ∧ best_match score cache e = Some m ∧
          (∀ item, item ∈ cache →
             PrimFloat.ltb (similarity m) (score e (ce_embedding item.2)) = false) ∧
          PrimFloat.ltb t (similarity m) = true ∧
          PrimFloat.eqb (similarity m) t = false) ∧
  (∀ before e behind m,
     embs = before ++ e :: behind →
     best_match score cache e = Some m →
     PrimFloat.eqb (similarity m) t = true →
     compare_faces score cache embs t =
     compare_faces score cache before t ++ compare_faces score cache behind t).
Proof.
  split.
  - intros m (e & He & Hbest & Hlt)%elem_of_compare_faces.
    exists e. split_and!; try done.
    + by apply best_match_spec.
    + destruct (PrimFloat.eqb (similarity m) t) eqn:Heq; [|done].
      apply float_eqb_not_ltb in Heq. congruence.
  - intros before e behind m -> Hbest Heq.
    rewrite compare_faces_app. simpl. rewrite Hbest.
    by rewrite (float_eqb_not_ltb _ _ Heq).
Qed.

(** C10: whatever the threshold, every match returned has a score
    strictly greater than zero, the value the selection of the best match
    starts from; an entry of the gallery whose score for a face is not
    greater than zero is never the match returned for that face. *)
Theorem compare_faces_positive_similarity
    (embs : list Embedding) (t : float) :
  (∀ m, m ∈ compare_faces score cache embs t →
     PrimFloat.ltb PrimFloat.zero (similarity m) = true) ∧
  (∀ e item,
     PrimFloat.ltb PrimFloat.zero (score e (ce_embedding item.2)) = false →
     best_match score cache e ≠ Some (entry_match score e item) ∧
     (e ∈ embs → ∀ m, m ∈ compare_faces score cache embs t →
        best_match score cache e = Some m → m ≠ entry_match score e item)).
Proof.
  split.
  - intros m (e & _ & Hbest & _)%elem_of_compare_faces.
    by apply best_match_spec in Hbest as (? & _).
  - intros e item Hnonpos.
    assert (best_match score cache e ≠ Some (entry_match score e item)) as Hne.
    { intros Hbest. apply best_match_spec in Hbest as (Hpos & _).
      simpl in Hpos. congruence. }
    split; [done|]. intros _ m _ Hbest ->. done.
Qed.
End matcher_claims.

(** * Duplicates in a frame *)
Section duplicates.
Import app.

Lemma elem_of_remove_duplicates seen ms m :
  m ∈ remove_duplicates seen ms → m ∈ ms ∧ employee_id m ∉ seen.
Proof.
  revert seen. induction ms as [|x ms IH]; intros seen; simpl.
  - by intros ?%elem_of_nil.
  - case_decide.
    + intros Hm. apply IH in Hm as [? ?]. split; [by right|done].
    + intros [->|Hm]%elem_of_cons; [split; [by left|done]|].
      apply IH in Hm as [? Hns]. split; [by right|].
      intros ?. apply Hns, elem_of_union. by right.
Qed.

Lemma remove_duplicates_NoDup seen ms :
  NoDup (employee_id <$> remove_duplicates seen ms).
Proof.
  revert seen. induction ms as [|x ms IH]; intros seen; simpl.
  - constructor.
  - case_decide; [apply IH|]. simpl. constructor; [|apply IH].
    intros (m & Heq & Hm)%list_elem_of_fmap.
    apply elem_of_remove_duplicates in Hm as [_ Hm]. set_solver.
Qed.

Lemma remove_duplicates_sublist seen ms :
  remove_duplicates seen ms `sublist_of` ms.
Proof.
  revert seen. induction ms as [|x ms IH]; intros seen; simpl; [done|].
  case_decide; [by apply sublist_cons|by apply sublist_skip].
Qed.

Lemma remove_duplicates_first seen ms m :
  m ∈ remove_duplicates seen ms →
  head (filter (λ x, employee_id x = employee_id m) ms) = Some m.
Proof.
  revert seen. induction ms as [|x ms IH]; intros seen; simpl.
  - by intros ?%elem_of_nil.
  - case_decide as Hx.
    + intros Hm. pose proof (elem_of_remove_duplicates _ _ _ Hm) as [_ Hns].
      rewrite filter_cons_False; [by eapply IH|]. intros Heq. congruence.
    + intros [->|Hm]%elem_of_cons; [by rewrite filter_cons_True|].
      pose proof (elem_of_remove_duplicates _ _ _ Hm) as [_ Hns].
      rewrite filter_cons_False; [by eapply IH|]. set_solver.
Qed.

Lemma remove_duplicates_complete seen ms m :
  m ∈ ms → employee_id m ∉ seen →
  employee_id m ∈ employee_id <$> remove_duplicates seen ms.
Proof.
  revert seen. induction ms as [|x ms IH]; intros seen; simpl.
  - by intros ?%elem_of_nil.
  - intros [->|Hm]%elem_of_cons Hns.
    + rewrite decide_False by done. simpl. by left.
    + case_decide; [by apply IH|]. simpl.
      destruct (decide (employee_id m = employee_id x)) as [->|Hne]; [by left|].
      right. apply IH; [done|].
      by intros [?%elem_of_singleton|?]%elem_of_union.
Qed.

(** C6: of the matches of one frame, the list handed to the ledger keeps
    one entry for each employee, the first one in detection order, and
    keeps the entries in the order of the frame. *)
Theorem unique_matches_first_occurrence (matches : list face_match) :
  NoDup (employee_id <$> unique_matches matches) ∧
  NoDup (emp_employee_id <$> attendance_data (unique_matches matches)) ∧
  unique_matches matches `sublist_of` matches ∧
  (∀ m, m ∈ unique_matches matches →
     head (filter (λ x, employee_id x = employee_id m) matches) = Some m) ∧
  (∀ m, m ∈ matches →
     employee_id m ∈ employee_id <$> unique_matches matches).
Proof.
  unfold unique_matches. split_and!.
  - apply remove_duplicates_NoDup.
  - unfold attendance_data. rewrite <- list_fmap_compose.
    apply remove_duplicates_NoDup.
  - apply remove_duplicates_sublist.
  - intros m. apply remove_duplicates_first.
  - intros m Hm. apply remove_duplicates_complete; [done|set_solver].
Qed.
End duplicates.

(** * The ledger *)
Section ledger.

Lemma compare_refl s : String.compare s s = Eq.
Proof.
  pose proof (String.compare_antisym s s) as H.
  by destruct (String.compare s s).
Qed.

Lemma leb_trans s1 s2 s3 :
  String.leb s1 s2 = true → String.leb s2 s3 = true → String.leb s1 s3 = true.
Proof.
  intros H1%Is_true_true H2%Is_true_true. apply Is_true_true.
  by apply (transitivity (R:=String.le) H1 H2).
Qed.

Lemma leb_antisym' s1 s2 :
  String.leb s1 s2 = true → String.leb s2 s1 = true → s1 = s2.
Proof. apply String.leb_antisym. Qed.

Lemma leb_refl s : String.leb s s = true.
Proof. unfold String.leb. by rewrite compare_refl. Qed.

Lemma ltb_leb s1 s2 : String.ltb s1 s2 = negb (String.leb s2 s1).
Proof.
  unfold String.ltb, String.leb. rewrite (String.compare_antisym s2 s1).
  by destruct (String.compare s1 s2).
Qed.

Lemma not_later_refl r : not_later r r.
Proof. right. split; [done|apply leb_refl]. Qed.

Lemma not_later_trans a b c : not_later a b → not_later b c → not_later a c.
Proof.
  intros [Hab|[Hab Hab']] [Hbc|[Hbc Hbc']].
  - left. lia.
  - left. lia.
  - left. lia.
  - right. split; [lia|]. by eapply leb_trans.
Qed.

Lemma not_later_le r' r :
  not_later r' r → (row_created_at r' ≤ row_created_at r)%Z.
Proof. intros [?|[? _]]; lia. Qed.

(** The two outcomes of one step of the scan. *)
Lemma newer_Some b x :
  (newer (Some b) x = Some x ∧ not_later b x) ∨
  (newer (Some b) x = Some b ∧ not_later x b).
Proof.
  unfold newer. case_bool_decide as Hlt; [left; split; [done|by left]|].
  case_bool_decide as Heq; simpl.
  - destruct (String.ltb (row_time_in x) (row_time_in b)) eqn:Ht.
    + left. split; [done|]. right. split; [done|].
      rewrite ltb_leb in Ht. apply negb_true_iff in Ht.
      destruct (String.leb_total (row_time_in x) (row_time_in b)); congruence.
    + right. split; [done|]. right. split; [done|].
      rewrite ltb_leb in Ht. by apply negb_false_iff in Ht.
  - right. split; [done|]. left. lia.
Qed.

Lemma foldl_newer_spec l best :
  match foldl newer best l with
  | None => best = None ∧ l = []
  | Some r =>
      (best = Some r ∨ r ∈ l) ∧
      (∀ r', r' ∈ l → not_later r' r) ∧
      (∀ b, best = Some b → not_later b r)
  end.
Proof.
  revert best. induction l as [|x l IH]; intros best; simpl.
  - destruct best as [b|]; [|done]. split_and!; [by left| |].
    + by intros r' ?%elem_of_nil.
    + intros ? [= ->]. apply not_later_refl.
  - specialize (IH (newer best x)).
    destruct (foldl newer (newer best x) l) as [r|].
    + destruct IH as (Hin & Hmax & Hbest).
      destruct best as [b|].
      * destruct (newer_Some b x) as [[Hx Hbx]|[Hb Hxb]].
        -- rewrite Hx in Hin, Hbest. specialize (Hbest x eq_refl). split_and!.
           ++ destruct Hin as [[= ->]|Hin]; right; [by left|by right].
           ++ intros r' [->|Hr']%elem_of_cons; [done|by apply Hmax].
           ++ intros ? [= <-]. by eapply not_later_trans.
        -- rewrite Hb in Hin, Hbest. specialize (Hbest b eq_refl). split_and!.
           ++ destruct Hin as [Hin|Hin]; [by left|right; by right].
           ++ intros r' [->|Hr']%elem_of_cons; [|by apply Hmax].
              by eapply not_later_trans.
           ++ by intros ? [= <-].
      * cbn [newer] in Hin, Hbest. specialize (Hbest x eq_refl). split_and!.
        -- destruct Hin as [[= ->]|Hin]; right; [by left|by right].
        -- intros r' [->|Hr']%elem_of_cons; [done|by apply Hmax].
        -- done.
    + destruct IH as [Hnone _]. destruct best as [b|]; [|done].
      by destruct (newer_Some b x) as [[Hx _]|[Hb _]]; congruence.
Qed.

(** The row selected is a session of the employee and date, and every
    session of that employee and date was created earlier, or in the same
    second with a [time_in] that is not smaller. *)
Lemma select_latest_not_later e d db r :
  select_latest e d db = Some r →
  r ∈ db ∧ session_of e d r ∧
  ∀ r', r' ∈ db → session_of e d r' → not_later r' r.
Proof.
  unfold select_latest. intros Hsel.
  pose proof (foldl_newer_spec (filter (session_of e d) db) None) as Hspec.
  rewrite Hsel in Hspec. destruct Hspec as ([?|Hin] & Hmax & _); [done|].
  apply list_elem_of_filter in Hin as [? ?]. split_and!; try done.
  intros r' ? ?. apply Hmax. by apply list_elem_of_filter.
Qed.

(** The row selected is a session of the employee on that date, and no
    session of that employee and date was created later. *)
Lemma select_latest_Some e d db r :
  select_latest e d db = Some r →
  r ∈ db ∧ session_of e d r ∧
  ∀ r', r' ∈ db → session_of e d r' →
        (row_created_at r' ≤ row_created_at r)%Z.
Proof.
  intros (Hin & Hs & Hmax)%select_latest_not_later. split_and!; try done.
  intros r' Hr' Hs'. by apply not_later_le, Hmax.
Qed.

Lemma select_latest_None e d db :
  select_latest e d db = None ↔ ∀ r, r ∈ db → ¬ session_of e d r.
Proof.
  unfold select_latest.
  pose proof (foldl_newer_spec (filter (session_of e d) db) None) as Hspec.
  split.
  - intros Hsel. rewrite Hsel in Hspec. destruct Hspec as [_ Hnil].
    intros r Hr Hs. assert (r ∈ filter (session_of e d) db) as Hin
      by by apply list_elem_of_filter.
    rewrite Hnil in Hin. by apply elem_of_nil in Hin.
  - intros Hnone. destruct (foldl newer None _) as [r|]; [|done].
    destruct Hspec as ([?|Hin] & _); [done|].
    apply list_elem_of_filter in Hin as [? ?]. by destruct (Hnone r).
Qed.

(** A session created strictly after all the others of its employee and
    date is the one selected. *)
Lemma select_latest_newest e d db r :
  r ∈ db → session_of e d r →
  (∀ r', r' ∈ db → session_of e d r' → r' ≠ r →
         (row_created_at r' < row_created_at r)%Z) →
  select_latest e d db = Some r.
Proof.
  intros Hin Hs Hnew. destruct (select_latest e d db) as [r0|] eqn:Hsel.
  - apply select_latest_Some in Hsel as (Hin0 & Hs0 & Hmax).
    destruct (decide (r0 = r)) as [->|Hne]; [done|].
    specialize (Hnew r0 Hin0 Hs0 Hne). specialize (Hmax r Hin Hs). lia.
  - rewrite select_latest_None in Hsel. by destruct (Hsel r).
Qed.

(** C4, as the code has it: the session on which the decision is taken
    is one of the employee and date with the greatest creation timestamp.
    When no other session of the employee and date shares that timestamp,
    the values of [time_in] play no part in the choice, whatever their
    order; of several sessions created in the same second, the one with
    the smallest [time_in] is taken. *)
Theorem select_latest_by_creation (e d : string) (db : list row) (r : row) :
  select_latest e d db = Some r →
  r ∈ db ∧ session_of e d r ∧
  (∀ r', r' ∈ db → session_of e d r' →
         (row_created_at r' ≤ row_created_at r)%Z) ∧
  (∀ r', r' ∈ db → session_of e d r' →
         row_created_at r' = row_created_at r →
         String.leb (row_time_in r) (row_time_in r') = true) ∧
  ((∀ r', r' ∈ db → session_of e d r' → r' ≠ r →
          row_created_at r' ≠ row_created_at r) →
   ∀ clock_reading : row → string,
     select_latest e d ((λ x, with_time_in (clock_reading x) x) <$> db) =
     Some (with_time_in (clock_reading r) r)).
Proof.
  intros (Hin & Hs & Hmax)%select_latest_not_later. split_and!; try done.
  - intros r' Hr' Hs'. by apply not_later_le, Hmax.
  - intros r' Hr' Hs' Heq. destruct (Hmax r' Hr' Hs') as [?|[_ ?]]; [lia|done].
  - intros Halone g. apply select_latest_newest.
    + apply list_elem_of_fmap. by exists r.
    + done.
    + intros ? (r' & -> & Hr')%list_elem_of_fmap Hs' Hne.
      assert (r' ≠ r) as Hne' by by intros ->.
      specialize (Halone r' Hr' Hs' Hne').
      pose proof (not_later_le _ _ (Hmax r' Hr' Hs')) as Hle.
      cbn [with_time_in row_created_at] in *. lia.
Qed.
End ledger.

Section ledger_steps.
Variable clk : clock.
Local Abbreviation date_text := (date_isoformat (today clk)).
Local Abbreviation now_text := (time_isoformat (current_time clk)).

Lemma next_id_above db r : r ∈ db → (row_id r < next_id db)%Z.
Proof.
  unfold next_id. induction db as [|x db IH]; [by intros ?%elem_of_nil|].
  rewrite fmap_cons. cbn [foldr].
  intros [->|Hr]%elem_of_cons; [lia|]. specialize (IH Hr). lia.
Qed.

Lemma next_id_fresh db : next_id db ∉ row_id <$> db.
Proof.
  intros (r & Heq & Hr)%list_elem_of_fmap.
  apply next_id_above in Hr. lia.
Qed.

Lemma no_session_no_conflict e d t db :
  select_latest e d db = None → ¬ unique_conflict e d t db.
Proof.
  rewrite select_latest_None. intros Hnone (r & Hr & Hs & _)%Exists_exists.
  by apply (Hnone r).
Qed.

Lemma punch_in_Ok i emp db :
  ¬ unique_conflict (emp_employee_id emp) date_text now_text db →
  punch_in clk i emp db =
  Ok (db ++ [new_row db (emp_employee_id emp) (emp_name emp) date_text
               now_text "Present" (CURRENT_TIMESTAMP clk i)],
      punch_in_record clk emp).
Proof.
  intros Hfree. unfold punch_in, insert_attendance.
  by rewrite decide_False.
Qed.

Lemma punch_in_IntegrityError i emp db :
  unique_conflict (emp_employee_id emp) date_text now_text db →
  punch_in clk i emp db = IntegrityError.
Proof.
  intros Hconflict. unfold punch_in, insert_attendance.
  by rewrite decide_True.
Qed.

Lemma mark_each_app before behind i db records :
  mark_each clk i (before ++ behind) db records =
  match mark_each clk i before db records with
  | Ok (db', records') => mark_each clk (i + length before) behind db' records'
  | IntegrityError => IntegrityError
  end.
Proof.
  revert i db records. induction before as [|emp before IH]; intros i db records.
  - cbn [app mark_each length]. by rewrite Nat.add_0_r.
  - cbn [app mark_each length].
    destruct (mark_one clk i emp db) as [[db' record]|]; [|done].
    rewrite IH. by replace (S i + length before) with (i + S (length before)) by lia.
Qed.

(** C2, as the code has it: an event of an employee who has no session
    today, or whose latest session today is closed.  With no session
    today no session can have the current time as [time_in].  When no
    session of that employee and date has this [time_in], the event
    appends a session with a new id, [time_in] the current time and no
    [time_out], and emits a record without [time_out].  When one has, the
    table refuses the insert: the event raises, and so does the call,
    whatever the batch before and behind the event, and nothing of the
    batch is committed. *)
Theorem punch_in_creates_open_session (i : nat) (emp : employee)
    (db : list row) :
  select_latest (emp_employee_id emp) date_text db = None ∨
  (∃ r, select_latest (emp_employee_id emp) date_text db = Some r ∧
        row_time_out r ≠ None) →
  (select_latest (emp_employee_id emp) date_text db = None →
   ¬ unique_conflict (emp_employee_id emp) date_text now_text db) ∧
  (¬ unique_conflict (emp_employee_id emp) date_text now_text db →
   ∃ session record,
     mark_one clk i emp db = Ok (db ++ [session], record) ∧
     (row_id session ∉ row_id <$> db) ∧
     row_employee_id session = emp_employee_id emp ∧
     row_name session = emp_name emp ∧
     row_date session = date_text ∧
     row_time_in session = now_text ∧
     row_time_out session = None ∧
     row_created_at session = CURRENT_TIMESTAMP clk i ∧
     rec_employee_id record = emp_employee_id emp ∧
     rec_time_in record = strftime_HMS (current_time clk) ∧
     rec_time_out record = None) ∧
  (unique_conflict (emp_employee_id emp) date_text now_text db →
   mark_one clk i emp db = IntegrityError ∧
   ∀ (st : store) (before behind : list employee)
     (records : list attendance_record),
     mark_each clk 0 before (attendance st) [] = Ok (db, records) →
     i = length before →
     mark_attendance clk (before ++ emp :: behind) st = IntegrityError ∧
     after clk (before ++ emp :: behind) st = st).
Proof.
  intros Hstate.
  assert (mark_one clk i emp db = punch_in clk i emp db) as Hstep.
  { unfold mark_one. destruct Hstate as [->|(r & -> & Hclosed)]; [done|].
    by destruct (row_time_out r). }
  split_and!.
  - apply no_session_no_conflict.
  - intros Hfree.
    exists (new_row db (emp_employee_id emp) (emp_name emp) date_text
              now_text "Present" (CURRENT_TIMESTAMP clk i)),
           (punch_in_record clk emp).
    split_and!; try done; [|apply next_id_fresh].
    rewrite Hstep. by apply punch_in_Ok.
  - intros Hconflict.
    assert (mark_one clk i emp db = IntegrityError) as Hraise.
    { rewrite Hstep. by apply punch_in_IntegrityError. }
    split; [done|]. intros st before behind records Hbefore ->.
    assert (mark_attendance clk (before ++ emp :: behind) st = IntegrityError)
      as Hcall.
    { unfold mark_attendance. rewrite mark_each_app, Hbefore.
      cbn [mark_each]. rewrite Nat.add_0_l. by rewrite Hraise. }
    split; [done|]. unfold after. by rewrite Hcall.
Qed.

End ledger_steps.

Section ledger_invariant.
Variable clk : clock.
Local Abbreviation date_text := (date_isoformat (today clk)).
Local Abbreviation now_text := (time_isoformat (current_time clk)).

Lemma ledger_ok_at_most_one_open db : ledger_ok db → at_most_one_open db.
Proof.
  intros [Hids Hnew] e d. unfold open_sessions.
  assert (NoDup db) as Hnd by by eapply NoDup_fmap_1.
  pose proof (NoDup_filter (λ r, session_of e d r ∧ row_time_out r = None)
                _ Hnd) as Hndf.
  destruct (filter _ db) as [|x [|y l]] eqn:Hl; simpl; [lia|lia|exfalso].
  assert (x ∈ filter (λ r, session_of e d r ∧ row_time_out r = None) db)
    as Hx by (rewrite Hl; left).
  assert (y ∈ filter (λ r, session_of e d r ∧ row_time_out r = None) db)
    as Hy by (rewrite Hl; right; left).
  apply list_elem_of_filter in Hx as [[[Hxe Hxd] Hxo] Hx].
  apply list_elem_of_filter in Hy as [[[Hye Hyd] Hyo] Hy].
  assert (x ≠ y) as Hne.
  { apply NoDup_cons in Hndf as [Hnin _]. intros ->. apply Hnin. by left. }
  assert (row_created_at y < row_created_at x)%Z
    by (apply (Hnew x y Hx Hy Hxo); [split; congruence|congruence]).
  assert (row_created_at x < row_created_at y)%Z
    by (apply (Hnew y x Hy Hx Hyo); [split; congruence|congruence]).
  lia.
Qed.

Lemma update_time_out_ids t i db :
  row_id <$> update_time_out t i db = row_id <$> db.
Proof.
  unfold update_time_out. rewrite <- list_fmap_compose.
  apply list_fmap_ext. intros ? x _. simpl. by case_decide.
Qed.

Lemma update_time_out_ledger_ok t i db :
  ledger_ok db → ledger_ok (update_time_out t i db).
Proof.
  intros [Hids Hnew]. split; [by rewrite update_time_out_ids|].
  unfold update_time_out.
  intros r r' (x & -> & Hx)%list_elem_of_fmap (x' & -> & Hx')%list_elem_of_fmap.
  destruct (decide (row_id x = i)) as [Hi|Hi]; [done|].
  intros Hopen Hs Hne.
  assert (x' ≠ x) as Hne' by (intros ->; apply Hne; by rewrite decide_False).
  specialize (Hnew x x' Hx Hx' Hopen).
  destruct (decide (row_id x' = i)); simpl in *; by apply Hnew.
Qed.

Lemma insert_ledger_ok e n stamp db :
  ledger_ok db →
  (∀ r, r ∈ db → session_of e date_text r → row_time_out r ≠ None) →
  (∀ r, r ∈ db → session_of e date_text r → (row_created_at r < stamp)%Z) →
  ledger_ok (db ++ [new_row db e n date_text now_text "Present" stamp]).
Proof.
  intros [Hids Hnew] Hclosed Hstamp. split.
  - rewrite fmap_app. apply NoDup_app. split_and!; [done| |apply NoDup_singleton].
    intros i Hi ->%list_elem_of_singleton. by apply (next_id_fresh db).
  - intros r r' [Hr| ->%list_elem_of_singleton]%elem_of_app
             [Hr'| ->%list_elem_of_singleton]%elem_of_app Hopen Hs Hne.
    + by apply Hnew.
    + destruct Hs as [Hse Hsd]. simpl in *.
      destruct (Hclosed r Hr); [by split|done].
    + simpl in *. by apply Hstamp.
    + done.
Qed.

Lemma mark_one_ledger_ok i emp db db' record :
  ledger_ok db →
  (∀ r, r ∈ db → session_of (emp_employee_id emp) date_text r →
        (row_created_at r < CURRENT_TIMESTAMP clk i)%Z ∨
        row_time_in r = now_text) →
  mark_one clk i emp db = Ok (db', record) →
  ledger_ok db'.
Proof.
  intros Hok Hstamp. unfold mark_one.
  assert (
    (∀ r, r ∈ db → session_of (emp_employee_id emp) date_text r →
          row_time_out r ≠ None) →
    punch_in clk i emp db = Ok (db', record) → ledger_ok db') as Hin.
  { intros Hclosed. unfold punch_in, insert_attendance.
    case_decide as Hfree; [done|]. intros [= <- _].
    apply insert_ledger_ok; try done.
    intros r Hr Hs. destruct (Hstamp r Hr Hs) as [?|Htime]; [done|].
    destruct Hfree. apply Exists_exists. by exists r. }
  destruct (select_latest _ _ db) as [r|] eqn:Hsel.
  - destruct (row_time_out r) as [t|] eqn:Hout.
    + apply Hin. intros x Hx Hs Hopen.
      assert (select_latest (emp_employee_id emp) date_text db = Some x) as Hx'.
      { apply select_latest_newest; try done. intros r' Hr' Hs' Hne.
        destruct Hok as [_ Hnew]. destruct Hs as [Hse Hsd].
        apply Hnew; try done. by rewrite Hse, Hsd. }
      congruence.
    + intros [= <- _]. by apply update_time_out_ledger_ok.
  - apply Hin. intros x Hx Hs.
    rewrite select_latest_None in Hsel. by destruct (Hsel x).
Qed.

Lemma mark_one_traced db0 i emp db db' record :
  traced clk db0 db → mark_one clk i emp db = Ok (db', record) →
  traced clk db0 db'.
Proof.
  intros Htr. unfold mark_one.
  assert (punch_in clk i emp db = Ok (db', record) → traced clk db0 db') as Hin.
  { unfold punch_in, insert_attendance. case_decide; [done|]. intros [= <- _].
    intros r [Hr| ->%list_elem_of_singleton]%elem_of_app; [by apply Htr|by right]. }
  destruct (select_latest _ _ db) as [r|]; [|done].
  destruct (row_time_out r); [done|]. intros [= <- _].
  unfold update_time_out. intros x' (x & -> & Hx)%list_elem_of_fmap.
  destruct (Htr x Hx) as [(r0 & ? & ? & ? & ?)|?];
    [left; exists r0|right]; by case_decide.
Qed.

Lemma mark_each_ledger_ok db0 batch i db records db' records' :
  ledger_ok db → traced clk db0 db →
  (∀ j emp r, batch !! j = Some emp → r ∈ db0 →
              session_of (emp_employee_id emp) date_text r →
              (row_created_at r < CURRENT_TIMESTAMP clk (i + j))%Z) →
  mark_each clk i batch db records = Ok (db', records') →
  ledger_ok db'.
Proof.
  revert i db records. induction batch as [|emp batch IH];
    intros i db records Hok Htr Hfresh; simpl; [by intros [= <- _]|].
  destruct (mark_one clk i emp db) as [[db1 record]|] eqn:Hone; [|done].
  apply IH.
  - eapply mark_one_ledger_ok; [done| |done].
    intros r Hr [Hse Hsd].
    destruct (Htr r Hr) as [(r0 & Hr0 & He & Hd & Hc)|?]; [left|by right].
    rewrite <- Hc. replace i with (i + 0) by lia.
    apply (Hfresh 0 emp r0); [done|done|]. split; congruence.
  - by eapply mark_one_traced.
  - intros j emp' r Hj. replace (S i + j) with (i + S j) by lia.
    by apply Hfresh.
Qed.

Lemma traced_refl db : traced clk db db.
Proof. intros r Hr. left. by exists r. Qed.
End ledger_invariant.

Lemma fresh_stamps_take clk batch db k :
  fresh_stamps clk batch db → fresh_stamps clk (take k batch) db.
Proof.
  intros Hfresh i emp r [Hi _]%lookup_take_Some. by apply Hfresh.
Qed.

Lemma fresh_batch_ledger_ok clk batch db db' records :
  ledger_ok db → fresh_stamps clk batch db →
  mark_each clk 0 batch db [] = Ok (db', records) → ledger_ok db'.
Proof.
  intros Hok Hfresh. eapply mark_each_ledger_ok; [done|apply traced_refl|].
  intros j emp r. apply Hfresh.
Qed.

Lemma reachable_fresh_ledger_ok st :
  reachable fresh_stamps st → ledger_ok (attendance st).
Proof.
  induction 1 as [|clk batch st Hreach IH Hfresh].
  - split; [constructor|]. by intros r r' ?%elem_of_nil.
  - unfold after, mark_attendance.
    destruct (mark_each clk 0 batch (attendance st) []) as [[db' rs]|] eqn:Heach;
      [|done].
    simpl. by eapply fresh_batch_ledger_ok.
Qed.

(** C5, as the code has it: starting from an empty table, as long as the
    storage clock gives each new session a creation timestamp later than
    those of the sessions its employee already has that day, no employee
    has two open sessions on one date, neither between calls nor after
    any number of events of a batch. *)
Theorem one_open_session_under_fresh_stamps (st : store) :
  reachable fresh_stamps st →
  at_most_one_open (attendance st) ∧
  ∀ clk batch k db' records,
    fresh_stamps clk batch (attendance st) →
    mark_each clk 0 (take k batch) (attendance st) [] = Ok (db', records) →
    at_most_one_open db'.
Proof.
  intros Hok%reachable_fresh_ledger_ok. split.
  - by apply ledger_ok_at_most_one_open.
  - intros clk batch k db' records Hfresh Heach.
    apply ledger_ok_at_most_one_open.
    eapply fresh_batch_ledger_ok; [done| |done]. by apply fresh_stamps_take.
Qed.

(** * The report *)
Section report.

Lemma digit_value_digit n : digit_value (digit n) = Some (n `mod` 10).
Proof.
  unfold digit_value, digit.
  pose proof (Nat.mod_upper_bound n 10 ltac:(lia)) as Hlt.
  rewrite nat_ascii_embedding by lia.
  rewrite bool_decide_eq_true_2 by lia. f_equal. lia.
Qed.

Lemma zfill_2_app n rest :
  zfill 2 n +:+ rest = String (digit (n / 10)) (String (digit n) rest).
Proof. reflexivity. Qed.

Lemma zfill_2 n : zfill 2 n = String (digit (n / 10)) (String (digit n) "").
Proof. reflexivity. Qed.

Lemma two_digits_zfill n rest :
  n < 100 → two_digits (zfill 2 n +:+ rest) = Some (n, rest).
Proof.
  intros Hn. rewrite zfill_2_app. unfold two_digits.
  rewrite !digit_value_digit. cbn [mbind option_bind].
  assert (10 * ((n / 10) `mod` 10) + n `mod` 10 = n) as ->; [|done].
  pose proof (Nat.div_mod_eq n 10) as Hdiv.
  rewrite (Nat.mod_small (n / 10) 10); [lia|].
  apply Nat.Div0.div_lt_upper_bound. lia.
Qed.

Lemma expect_colon rest : expect ":" (":" +:+ rest) = Some rest.
Proof. reflexivity. Qed.

Lemma parse_hms_hms h m s :
  valid_hms h m s → parse_hms (hms h m s) = Some (h, m, s).
Proof.
  intros (Hh & Hm & Hs). unfold parse_hms, hms.
  rewrite two_digits_zfill by lia. cbn [mbind option_bind].
  rewrite expect_colon. cbn [mbind option_bind].
  rewrite two_digits_zfill by lia. cbn [mbind option_bind].
  rewrite expect_colon. cbn [mbind option_bind].
  rewrite zfill_2. change (String ?a (String ?b "")) with (zfill 2 s +:+ "").
  rewrite two_digits_zfill by lia. cbn [mbind option_bind fraction_ok].
  by rewrite bool_decide_eq_true_2.
Qed.

Lemma parse_hms_valid t h m s :
  parse_hms t = Some (h, m, s) → valid_hms h m s.
Proof.
  unfold parse_hms. intros Hp.
  repeat match type of Hp with
    | context [mbind ?f ?x] => destruct x as [[]|] eqn:?; simpl in Hp
    | context [mbind ?f ?x] => destruct x eqn:?; simpl in Hp
    end; try done.
  destruct (bool_decide _) eqn:Hvalid; simpl in Hp; [|done].
  apply bool_decide_eq_true in Hvalid.
  destruct (fraction_ok _); by simplify_eq.
Qed.

(** The time cells of a report are blank or of the form [HH:MM:SS]. *)
Lemma to_datetime_strftime_Some v t :
  to_datetime_strftime v = Some t →
  ∃ h m s, valid_hms h m s ∧ t = hms h m s.
Proof.
  unfold to_datetime_strftime. destruct v as [x|]; simpl; [|done].
  destruct (parse_hms x) as [[[h m] s]|] eqn:Hp; simpl; [|done].
  intros [= <-]. exists h, m, s. split; [by eapply parse_hms_valid|done].
Qed.

Lemma to_timedelta_hms h m s :
  valid_hms h m s → to_timedelta (hms h m s) = Some (Z.of_nat (seconds_of h m s)).
Proof. intros Hv. unfold to_timedelta. by rewrite parse_hms_hms. Qed.

Lemma hms_not_blank h m s : hms h m s ≠ "".
Proof. unfold hms. by rewrite zfill_2. Qed.

Lemma seconds_of_lt h m s : valid_hms h m s → seconds_of h m s < 24 * 3600.
Proof. unfold valid_hms, seconds_of. lia. Qed.

Lemma timedelta_last_word_nonneg a b :
  a ≤ b → b < 24 * 3600 →
  timedelta_last_word (Z.of_nat b - Z.of_nat a) = hms_of_seconds (b - a).
Proof.
  intros Hab Hb. unfold timedelta_last_word, hms_of_seconds.
  rewrite Z.div_small, Z.mod_small by lia.
  rewrite bool_decide_eq_false_2 by lia.
  by replace (Z.to_nat (Z.of_nat b - Z.of_nat a)) with (b - a) by lia.
Qed.

Lemma duration_cell_blank time_in :
  duration_cell time_in None = Some "".
Proof. done. Qed.

Lemma duration_cell_hms h1 m1 s1 h2 m2 s2 :
  valid_hms h1 m1 s1 → valid_hms h2 m2 s2 →
  duration_cell (Some (hms h1 m1 s1)) (Some (hms h2 m2 s2)) =
  Some (timedelta_last_word
          (Z.of_nat (seconds_of h2 m2 s2) - Z.of_nat (seconds_of h1 m1 s1))).
Proof.
  intros Hv1 Hv2. unfold duration_cell.
  rewrite bool_decide_eq_false_2 by apply hms_not_blank.
  by rewrite !to_timedelta_hms.
Qed.

Lemma format_row_total q : is_Some (format_row q).
Proof.
  unfold format_row.
  destruct (to_datetime_strftime (sel_time_out q)) as [t_out|] eqn:Hout; [|by eexists].
  apply to_datetime_strftime_Some in Hout as (h2 & m2 & s2 & Hv2 & ->).
  destruct (to_datetime_strftime (sel_time_in q)) as [t_in|] eqn:Hin.
  - apply to_datetime_strftime_Some in Hin as (h1 & m1 & s1 & Hv1 & ->).
    rewrite duration_cell_hms by done. by eexists.
  - unfold duration_cell.
    rewrite bool_decide_eq_false_2 by apply hms_not_blank.
    rewrite to_timedelta_hms by done. by eexists.
Qed.

Lemma build_report_total date db : is_Some (build_report date db).
Proof.
  unfold build_report. destruct (query_day date db) as [|q df]; [by eexists|].
  assert (is_Some (mapM format_row (q :: df))) as [rs Hrs].
  { apply mapM_is_Some, Forall_forall. intros x _. apply format_row_total. }
  rewrite Hrs. by eexists.
Qed.

Lemma build_report_rows date db rep r :
  build_report date db = Some rep → r ∈ rows rep →
  ∃ q, q ∈ query_day date db ∧ format_row q = Some r.
Proof.
  unfold build_report. destruct (query_day date db) as [|q0 df].
  - intros [= <-]. simpl. by intros ?%elem_of_nil.
  - destruct (mapM format_row (q0 :: df)) as [rs|] eqn:Hrs; simpl; [|done].
    intros [= <-]. simpl. apply mapM_Some_1 in Hrs.
    intros [i Hi]%list_elem_of_lookup.
    destruct (Forall2_lookup_r _ _ _ _ _ Hrs Hi) as (q & Hq & Hf).
    exists q. split; [by eapply list_elem_of_lookup_2|done].
Qed.

Lemma format_row_duration q r :
  format_row q = Some r →
  (∀ t, rep_time_in r = Some t → ∃ h m s, valid_hms h m s ∧ t = hms h m s) ∧
  (∀ t, rep_time_out r = Some t → ∃ h m s, valid_hms h m s ∧ t = hms h m s) ∧
  (rep_time_out r = None → rep_duration r = "") ∧
  (∀ h1 m1 s1 h2 m2 s2,
     rep_time_in r = Some (hms h1 m1 s1) →
     rep_time_out r = Some (hms h2 m2 s2) →
     valid_hms h1 m1 s1 → valid_hms h2 m2 s2 →
     seconds_of h1 m1 s1 ≤ seconds_of h2 m2 s2 →
     rep_duration r =
     hms_of_seconds (seconds_of h2 m2 s2 - seconds_of h1 m1 s1)).
Proof.
  unfold format_row.
  destruct (duration_cell _ _) as [duration|] eqn:Hd; simpl; [|done].
  intros [= <-]. simpl. split_and!.
  - apply to_datetime_strftime_Some.
  - apply to_datetime_strftime_Some.
  - intros Hnone. rewrite Hnone in Hd. by injection Hd as <-.
  - intros h1 m1 s1 h2 m2 s2 Hin Hout Hv1 Hv2 Hle.
    rewrite Hin, Hout, duration_cell_hms in Hd by done.
    injection Hd as <-. apply timedelta_last_word_nonneg; [done|].
    by apply seconds_of_lt.
Qed.

(** C7, as the code has it: a report is always produced; in each of its
    rows the time cells are blank or of the form [HH:MM:SS]; the duration
    is blank when [time_out] is blank, and when both times are present
    and [time_out] is not earlier than [time_in] it is their difference
    written [HH:MM:SS] -- [08:00:00] for [09:00:00] to [17:00:00]. *)
Theorem report_duration_column (date : string) (db : list row) :
  ∃ rep,
    build_report date db = Some rep ∧
    ∀ r, r ∈ rows rep →
      (∀ t, rep_time_in r = Some t → ∃ h m s, valid_hms h m s ∧ t = hms h m s) ∧
      (∀ t, rep_time_out r = Some t → ∃ h m s, valid_hms h m s ∧ t = hms h m s) ∧
      (rep_time_out r = None → rep_duration r = "") ∧
      (∀ h1 m1 s1 h2 m2 s2,
         rep_time_in r = Some (hms h1 m1 s1) →
         rep_time_out r = Some (hms h2 m2 s2) →
         valid_hms h1 m1 s1 → valid_hms h2 m2 s2 →
         seconds_of h1 m1 s1 ≤ seconds_of h2 m2 s2 →
         rep_duration r =
         hms_of_seconds (seconds_of h2 m2 s2 - seconds_of h1 m1 s1)) ∧
      (rep_time_in r = Some "09:00:00" → rep_time_out r = Some "17:00:00" →
       rep_duration r = "08:00:00").
Proof.
  destruct (build_report_total date db) as [rep Hrep]. exists rep.
  split; [done|]. intros r Hr.
  destruct (build_report_rows _ _ _ _ Hrep Hr) as (q & _ & Hq).
  destruct (format_row_duration _ _ Hq) as (Hin & Hout & Hblank & Hdur).
  split_and!; try done.
  intros Hi Ho.
  rewrite (Hdur 9 0 0 17 0 0 Hi Ho); [done| | |]; unfold valid_hms, seconds_of; lia.
Qed.

(** C8: writing the report of a day twice from the same table gives the
    folder the first writing gave; the sheet written is the one rebuilt
    from the table, whatever file was there before, and no other file is
    touched. *)
Theorem save_to_excel_idempotent (today : datetime_date) (db : list row)
    (files : gmap string report) :
  save_to_excel today db (save_to_excel today db files) =
  save_to_excel today db files ∧
  (∃ rep, build_report (date_isoformat today) db = Some rep ∧
          ∀ files' : gmap string report,
            save_to_excel today db files' !! excel_path today = Some rep) ∧
  (∀ path, path ≠ excel_path today →
           save_to_excel today db files !! path = files !! path).
Proof.
  unfold save_to_excel.
  destruct (build_report_total (date_isoformat today) db) as [rep Hrep].
  rewrite Hrep. split_and!.
  - apply insert_insert_eq.
  - exists rep. split; [done|]. intros files'. apply lookup_insert_eq.
  - intros path Hne. by apply lookup_insert_ne.
Qed.
End report.

(** * Registration *)
Section strings.
Lemma string_app_cons a (s1 s2 : string) :
  String a s1 +:+ s2 = String a (s1 +:+ s2).
Proof. reflexivity. Qed.

Lemma string_length_app (s1 s2 : string) :
  String.length (s1 +:+ s2) = String.length s1 + String.length s2.
Proof.
  induction s1 as [|a s1 IH]; [done|].
  rewrite string_app_cons. cbn [String.length]. by rewrite IH.
Qed.

Lemma string_app_inj_r (s1 s2 e : string) : s1 +:+ e = s2 +:+ e → s1 = s2.
Proof.
  revert s2. induction s1 as [|a s1 IH]; intros [|b s2] Heq; [done| | |].
  - apply (f_equal String.length) in Heq.
    rewrite !string_length_app in Heq. cbn [String.length] in Heq. lia.
  - apply (f_equal String.length) in Heq.
    rewrite !string_length_app in Heq. cbn [String.length] in Heq. lia.
  - rewrite !string_app_cons in Heq. injection Heq as -> Heq.
    f_equal. by apply IH.
Qed.

Lemma path_join_stem_inj (folder stem x y : string) :
  stem ≠ "" →
  app.path_join folder (stem +:+ x) = app.path_join folder (stem +:+ y) →
  x = y.
Proof.
  destruct stem as [|c stem]; [done|]. intros _. unfold app.path_join.
  rewrite !string_app_cons. case_bool_decide.
  - intros [= Heq]. by apply String.app_inj in Heq.
  - intros Heq%String.app_inj.
    change (String "/" (String c (stem +:+ x)) =
            String "/" (String c (stem +:+ y))) in Heq.
    injection Heq as Heq. by apply String.app_inj in Heq.
Qed.
End strings.

Section free_path.
Import app.
Context {image : Type}.
Implicit Types files : gmap string (file (image:=image)).

Lemma next_free_spec fuel (exists_ : string → bool) candidate counter path :
  exists_ (next_free fuel exists_ candidate counter path) = false ∨
  ((0 < fuel → exists_ path = true) ∧
   ∀ j, S j < fuel → exists_ (candidate (counter + j)) = true).
Proof.
  revert counter path. induction fuel as [|fuel IH]; intros counter path; simpl.
  - right. split; intros; lia.
  - destruct (exists_ path) eqn:Hpath; [|by left].
    destruct (IH (S counter) (candidate counter)) as [?|[Hfirst Hrest]]; [by left|].
    right. split; [done|]. intros [|j] Hj.
    + rewrite Nat.add_0_r. apply Hfirst. lia.
    + replace (counter + S j) with (S counter + j) by lia. apply Hrest. lia.
Qed.

(** The loop ends on a path where no file exists: the folder cannot hold
    all of the [size files + 1] names tried. *)
Lemma free_path_fresh files stem ext :
  stem ≠ "" → files !! free_path files stem ext = None.
Proof.
  intros Hstem. unfold free_path.
  set (candidate := λ counter : nat,
         path_join FACE_FOLDER (stem +:+ "_" +:+ pretty counter +:+ ext)).
  set (first := path_join FACE_FOLDER (stem +:+ ext)).
  destruct (next_free_spec (S (size files)) (path_exists files) candidate 1 first)
    as [Hfree|[Hfirst Hrest]].
  { unfold path_exists in Hfree. apply bool_decide_eq_false in Hfree.
    by apply eq_None_not_Some. }
  exfalso.
  set (tried := first :: (candidate <$> seq 1 (size files))).
  assert (NoDup tried) as Hnd.
  { apply NoDup_cons. split.
    - intros (c & Heq & _)%list_elem_of_fmap. unfold first, candidate in Heq.
      apply path_join_stem_inj in Heq; [|done].
      apply (f_equal String.length) in Heq.
      rewrite !string_length_app in Heq. cbn [String.length] in Heq. lia.
    - apply NoDup_fmap_2_strong; [|apply NoDup_seq].
      intros c1 c2 _ _ Heq. unfold candidate in Heq.
      apply path_join_stem_inj in Heq; [|done].
      apply String.app_inj, string_app_inj_r in Heq. by apply (inj pretty). }
  assert (list_to_set tried ⊆@{gset string} dom files) as Hsub.
  { intros p [->|(c & -> & Hc)%list_elem_of_fmap]%elem_of_list_to_set%elem_of_cons;
      apply elem_of_dom.
    - specialize (Hfirst ltac:(lia)). by apply bool_decide_eq_true in Hfirst.
    - apply elem_of_seq in Hc.
      specialize (Hrest (c - 1) ltac:(lia)).
      replace (1 + (c - 1)) with c in Hrest by lia.
      by apply bool_decide_eq_true in Hrest. }
  apply subseteq_size in Hsub.
  rewrite size_list_to_set, size_dom in Hsub by done.
  unfold tried in Hsub. cbn in Hsub. rewrite length_fmap, length_seq in Hsub. lia.
Qed.
End free_path.

Section register_claims.
Import app.
Context {image : Type}.
Variable decode_image : string → option image.
Variable represent : image → option Embedding.
Variable sanitize_filename : string → string.
Variable strip : string → string.
Variable writable : string → bool.
Variable write_error : string → string.

Lemma stem_not_empty (employee_id sanitized_name : string) :
  employee_id +:+ "_" +:+ sanitized_name ≠ "".
Proof.
  intros Heq. apply (f_equal String.length) in Heq.
  rewrite !string_length_app in Heq. cbn [String.length] in Heq. lia.
Qed.

(** Writing the frame, finding no face in it and cleaning up leaves the
    folder as it was. *)
Lemma no_face_restores_folder (files : gmap string (file (image:=image)))
    stem frame :
  represent frame = None →
  let face_path := free_path files stem ".jpg" in
  let written := imwrite writable face_path frame files in
  stem ≠ "" →
  extract_face_embedding represent face_path written = None ∧
  (if path_exists written face_path then delete face_path written else written)
  = files.
Proof.
  intros Hface face_path written Hstem.
  pose proof (free_path_fresh files stem ".jpg" Hstem) as Hfresh.
  fold face_path in Hfresh. unfold written, imwrite, extract_face_embedding, path_exists.
  destruct (writable face_path).
  - rewrite lookup_insert_eq. split; [done|].
    rewrite bool_decide_eq_true_2 by by eexists.
    by apply delete_insert_id.
  - rewrite Hfresh. split; [done|].
    rewrite bool_decide_eq_false_2; [done|]. by intros [? ?].
Qed.

(** C9: when no face can be found in the image sent, the registration
    answers with a failure and one of its messages, and the folder, the
    table of employees and the gallery are what they were before the
    request; a request that is otherwise acceptable gets the message that
    no face was detected. *)
Theorem register_employee_without_face (now : Z) (data : registration)
    (st : state (image:=image)) :
  (∀ frame, decode_image (data_image data) = Some frame →
            represent frame = None) →
  ∃ msg,
    register_employee decode_image represent sanitize_filename strip
      writable write_error now data st = (failure msg, st) ∧
    msg ∈ ["Missing required fields"; "Employee ID already exists";
           "Invalid image";
           "No face detected. Please ensure face is clearly visible."] ∧
    (strip (data_employee_id data) ≠ "" → strip (data_name data) ≠ "" →
     data_image data ≠ "" →
     (∀ e, e ∈ employees st →
           Employee_employee_id e ≠ strip (data_employee_id data)) →
     is_Some (decode_image (data_image data)) →
     msg = "No face detected. Please ensure face is clearly visible.").
Proof.
  intros Hnoface. unfold register_employee.
  case_bool_decide as Hmissing.
  { eexists. split_and!; [done|left|].
    intros ? ? ? _ _. by destruct Hmissing as [?|[?|?]]. }
  case_bool_decide as Hexists.
  { eexists. split_and!; [done|right; left|].
    intros _ _ _ Hnew _. exfalso.
    apply Exists_exists in Hexists as (e & He & Heq). by apply (Hnew e). }
  destruct (decode_image (data_image data)) as [frame|] eqn:Hdecode.
  2:{ eexists. split_and!; [done|right; right; left|]. by intros _ _ _ _ [? ?]. }
  specialize (Hnoface frame eq_refl).
  destruct (no_face_restores_folder (faces st)
              (strip (data_employee_id data) +:+ "_" +:+
               sanitize_filename (strip (data_name data)))
              frame Hnoface (stem_not_empty _ _)) as [-> ->].
  eexists. split_and!; [by destruct st|do 3 right; left|done].
Qed.
End register_claims.

(** * Instances *)

Lemma reachable_store_in : reachable fresh_stamps store_in.
Proof.
  apply reachable_call; [apply reachable_empty|].
  intros i emp r _ Hr. by apply elem_of_nil in Hr.
Qed.

Lemma reachable_store_in_out : reachable fresh_stamps store_in_out.
Proof.
  apply reachable_call; [apply reachable_store_in|].
  intros i emp r _ Hr _. vm_compute in Hr.
  apply list_elem_of_singleton in Hr as ->. reflexivity.
Qed.

Lemma compare_faces_strictly_above_threshold_witness :
  app.compare_faces app.cosine_similarity sample_gallery [sample_face]
    (app.similarity match_A) = [].
Proof.
  apply (proj2 (compare_faces_strictly_above_threshold app.cosine_similarity
                  sample_gallery [sample_face] (app.similarity match_A))
           [] sample_face [] match_A);
    vm_compute; reflexivity.
Defined.

Lemma compare_faces_positive_similarity_witness :
  app.best_match app.cosine_similarity sample_gallery sample_face
  ≠ Some (entry_match app.cosine_similarity sample_face entry_B).
Proof.
  apply (proj2 (compare_faces_positive_similarity app.cosine_similarity
                  sample_gallery [sample_face] (-1)%float)
           sample_face entry_B).
  vm_compute. reflexivity.
Defined.

Lemma unique_matches_first_occurrence_witness :
  NoDup (app.employee_id <$>
           app.unique_matches
             [match_A;
              entry_match app.cosine_similarity sample_face entry_B;
              entry_match app.cosine_similarity [4; 3]%float entry_A]).
Proof. apply unique_matches_first_occurrence. Defined.

Lemma select_latest_by_creation_witness :
  select_latest "E1" "2026-11-03"
    ((λ x, with_time_in (exchanged session_first session_second x) x) <$>
     [session_first; session_second]) =
  Some (with_time_in "10:00:00" session_second).
Proof.
  destruct (select_latest_by_creation "E1" "2026-11-03"
              [session_first; session_second] session_second)
    as (_ & _ & _ & _ & Hfree).
  - vm_compute. reflexivity.
  - apply (Hfree ltac:(intros r' [->|[->|[]%elem_of_nil]%elem_of_cons]%elem_of_cons _ Hne;
                       [discriminate|contradiction])
             (exchanged session_first session_second)).
Defined.

Lemma punch_in_creates_open_session_witness :
  ∃ session record,
    mark_one (sample_clock 17 30 0 300) 0 E1 (attendance store_in_out) =
    Ok (attendance store_in_out ++ [session], record) ∧
    row_time_out session = None ∧ rec_time_out record = None.
Proof.
  destruct (punch_in_creates_open_session (sample_clock 17 30 0 300) 0 E1
              (attendance store_in_out)) as (_ & Hopen & _).
  - right. eexists. split.
    + vm_compute. reflexivity.
    + discriminate.
  - destruct Hopen as (session & record & H & Hrest).
    + unfold unique_conflict. apply (bool_decide_unpack _). vm_compute. exact I.
    + exists session, record. split_and!; [exact H|apply Hrest..].
Defined.


Lemma one_open_session_under_fresh_stamps_witness :
  at_most_one_open (attendance store_in_out).
Proof.
  apply (proj1 (one_open_session_under_fresh_stamps store_in_out
                  reachable_store_in_out)).
Defined.

Lemma report_duration_column_witness :
  ∃ rep r,
    build_report "2026-11-03" (attendance store_in_out) = Some rep ∧
    rows rep = [r] ∧ rep_duration r = "08:00:00".
Proof.
  destruct (report_duration_column "2026-11-03" (attendance store_in_out))
    as (rep & Hrep & Hrows).
  vm_compute in Hrep. injection Hrep as <-.
  eexists _, _. split_and!; [reflexivity|reflexivity|].
  apply Hrows; [left|reflexivity|reflexivity].
Defined.

Lemma save_to_excel_idempotent_witness :
  save_to_excel sample_day (attendance store_in_out)
    (save_to_excel sample_day (attendance store_in_out) (attendance_logs store_in))
  = save_to_excel sample_day (attendance store_in_out) (attendance_logs store_in).
Proof.
  apply (proj1 (save_to_excel_idempotent sample_day (attendance store_in_out)
                  (attendance_logs store_in))).
Defined.

Lemma register_employee_without_face_witness :
  ∃ msg,
    app.register_employee (λ s, Some s) (λ _, None) (λ s, s) (λ s, s)
      (λ _, true) (λ _, "") 0 sample_registration sample_state
    = (app.failure msg, sample_state).
Proof.
  destruct (register_employee_without_face (λ s : string, Some s) (λ _, None)
              (λ s, s) (λ s, s) (λ _, true) (λ _, "") 0
              sample_registration sample_state) as (msg & H & _).
  - intros frame _. reflexivity.
  - exists msg. exact H.
Defined.

(** * Where the stated claims fail *)

(** C2 as stated: the employee punches in at half past one and out a
    quarter of an hour later; the local clock is set back by an hour, and
    the employee comes again when it reads half past one.  The latest
    session of the employee is closed, and the event creates no session:
    the table refuses a second session with that [time_in], the call
    raises and the table stays as it was. *)
Lemma punch_in_conflict_counterexample :
  let clk := sample_clock 1 30 0 3700 in
  let db := attendance store_before_clock_back in
  reachable any_clock store_before_clock_back ∧
  (∃ r, select_latest "E1" (date_isoformat (today clk)) db = Some r ∧
        row_time_out r ≠ None) ∧
  mark_one clk 0 E1 db = IntegrityError ∧
  mark_attendance clk [E1] store_before_clock_back = IntegrityError ∧
  after clk [E1] store_before_clock_back = store_before_clock_back.
Proof.
  cbv zeta. split_and!.
  - unfold store_before_clock_back.
    repeat (apply reachable_call; [|exact I]). apply reachable_empty.
  - eexists. split; [vm_compute; reflexivity|discriminate].
  - vm_compute. reflexivity.
  - vm_compute. reflexivity.
  - vm_compute. reflexivity.
Qed.

(** C4 as stated: three visits of one employee within one second of the
    storage clock leave a closed and an open session with one creation
    timestamp.  The session taken as the latest is the closed one, which
    was inserted first and has the smaller [time_in]; with the two
    [time_in] values exchanged it is the other.  The next visit therefore
    opens a further session. *)
Lemma same_second_counterexample :
  let db := attendance store_same_second in
  reachable any_clock store_same_second ∧
  ∃ first second,
    db = [first; second] ∧
    row_created_at first = row_created_at second ∧
    (row_id first < row_id second)%Z ∧
    row_time_in first = "09:00:00.100000" ∧
    row_time_in second = "09:00:00.700000" ∧
    row_time_out first ≠ None ∧ row_time_out second = None ∧
    select_latest "E1" "2026-11-03" db = Some first ∧
    select_latest "E1" "2026-11-03"
      ((λ x, with_time_in (exchanged first second x) x) <$> db) =
      Some (with_time_in (row_time_in first) second) ∧
    length (open_sessions "E1" "2026-11-03"
              (attendance (after (sample_clock 17 0 0 200) [E1]
                             store_same_second))) = 2.
Proof.
  cbv zeta. split.
  - unfold store_same_second.
    repeat (apply reachable_call; [|exact I]). apply reachable_empty.
  - eexists _, _. split; [vm_compute; reflexivity|].
    split_and!; try (vm_compute; reflexivity); discriminate.
Qed.

Lemma reachable_after admissible clk batch st :
  reachable admissible st → admissible clk batch (attendance st) →
  reachable admissible (after clk batch st).
Proof. apply reachable_call. Qed.

(** C5 as stated: four visits of one employee, the storage clock being set
    back after the second, leave two open sessions on the same date. *)
Lemma two_open_sessions_counterexample :
  reachable any_clock store_clock_set_back ∧
  length (open_sessions "E1" "2026-11-03" (attendance store_clock_set_back)) = 2 ∧
  ¬ at_most_one_open (attendance store_clock_set_back).
Proof.
  split_and!.
  - unfold store_clock_set_back, store_in.
    repeat (apply reachable_after; [|exact I]). apply reachable_empty.
  - vm_compute. reflexivity.
  - intros H. specialize (H "E1" "2026-11-03"). vm_compute in H. lia.
Qed.

Lemma digit_not_plus n : digit n ≠ "+"%char.
Proof.
  intros Heq. pose proof (digit_value_digit n) as Hd. rewrite Heq in Hd.
  vm_compute in Hd. discriminate.
Qed.

(** C7 as stated: the local clock is set back between punch-in and
    punch-out; both times are present in the row and the duration cell is
    not a difference written [HH:MM:SS]. *)
Lemma negative_duration_counterexample :
  ∃ r,
    attendance_logs store_out_before_in !! excel_path sample_day =
    Some {| columns := ["employee_id"; "name"; "date"; "time_in"; "time_out";
                        "status"; "duration"];
            rows := [r] |} ∧
    rep_time_in r = Some "17:00:00" ∧ rep_time_out r = Some "09:00:00" ∧
    rep_duration r = "+16:00:00" ∧
    ∀ h m s, rep_duration r ≠ hms h m s.
Proof.
  eexists. split_and!; [vm_compute; reflexivity|reflexivity..|].
  intros h m s Heq. unfold hms in Heq. rewrite zfill_2_app in Heq.
  cbn [rep_duration] in Heq. injection Heq as Heq _.
  by apply (digit_not_plus (h / 10)).
Qed.

(** * Further properties of the ledger *)
Section ledger_more.
Variable clk : clock.
Local Abbreviation date_text := (date_isoformat (today clk)).
Local Abbreviation now_text := (time_isoformat (current_time clk)).

(** What an event that succeeds did: it closed the latest session, or it
    appended a session. *)
Lemma mark_one_inv i emp db db' record :
  mark_one clk i emp db = Ok (db', record) →
  (∃ existing,
      select_latest (emp_employee_id emp) date_text db = Some existing ∧
      row_time_out existing = None ∧
      db' = update_time_out now_text (row_id existing) db ∧
      record = punch_out_record clk emp (row_time_in existing)) ∨
  (¬ unique_conflict (emp_employee_id emp) date_text now_text db ∧
   db' = db ++ [new_row db (emp_employee_id emp) (emp_name emp) date_text
                  now_text "Present" (CURRENT_TIMESTAMP clk i)] ∧
   record = punch_in_record clk emp).
Proof.
  unfold mark_one.
  assert (punch_in clk i emp db = Ok (db', record) →
          ¬ unique_conflict (emp_employee_id emp) date_text now_text db ∧
          db' = db ++ [new_row db (emp_employee_id emp) (emp_name emp) date_text
                         now_text "Present" (CURRENT_TIMESTAMP clk i)] ∧
          record = punch_in_record clk emp) as Hin.
  { unfold punch_in, insert_attendance. case_decide; [done|].
    by intros [= <- <-]. }
  destruct (select_latest _ _ db) as [existing|] eqn:Hsel; [|by right; apply Hin].
  destruct (row_time_out existing) eqn:Hout; [by right; apply Hin|].
  intros [= <- <-]. left. by exists existing.
Qed.

Lemma update_time_out_keys t i db :
  (λ r, (row_employee_id r, row_date r, row_time_in r)) <$> update_time_out t i db
  = (λ r, (row_employee_id r, row_date r, row_time_in r)) <$> db.
Proof.
  unfold update_time_out. rewrite <- list_fmap_compose.
  apply list_fmap_ext. intros ? x _. simpl. by case_decide.
Qed.

Lemma mark_one_table_ok i emp db db' record :
  table_ok db → mark_one clk i emp db = Ok (db', record) → table_ok db'.
Proof.
  intros [Hids Hkeys] [(existing & _ & _ & -> & _)|(Hfree & -> & _)]%mark_one_inv.
  - split; [by rewrite update_time_out_ids|by rewrite update_time_out_keys].
  - split; rewrite fmap_app; apply NoDup_app; split_and!;
      try done; try apply NoDup_singleton.
    + intros x Hx ->%list_elem_of_singleton. by apply (next_id_fresh db).
    + intros k (r & -> & Hr)%list_elem_of_fmap Hk%list_elem_of_singleton.
      apply Hfree, Exists_exists. exists r. simpl in Hk.
      split; [done|]. unfold session_of. by simplify_eq.
Qed.

Lemma mark_each_table_ok batch i db records db' records' :
  table_ok db → mark_each clk i batch db records = Ok (db', records') →
  table_ok db'.
Proof.
  revert i db records. induction batch as [|emp batch IH];
    intros i db records Hok; simpl; [by intros [= <- _]|].
  destruct (mark_one clk i emp db) as [[db1 record]|] eqn:Hone; [|done].
  apply IH. by eapply mark_one_table_ok.
Qed.

Lemma mark_one_record i emp db db' record :
  mark_one clk i emp db = Ok (db', record) →
  rec_employee_id record = emp_employee_id emp ∧
  rec_name record = emp_name emp ∧
  rec_date record = date_text ∧
  rec_status record = "Present".
Proof.
  by intros [(existing & _ & _ & _ & ->)|(_ & _ & ->)]%mark_one_inv.
Qed.

Lemma mark_each_records batch i db records db' records' :
  mark_each clk i batch db records = Ok (db', records') →
  ∃ new, records' = records ++ new ∧
    Forall2 (λ emp record,
               rec_employee_id record = emp_employee_id emp ∧
               rec_name record = emp_name emp ∧
               rec_date record = date_text ∧
               rec_status record = "Present") batch new.
Proof.
  revert i db records. induction batch as [|emp batch IH];
    intros i db records; simpl.
  - intros [= _ <-]. exists []. by rewrite app_nil_r.
  - destruct (mark_one clk i emp db) as [[db1 record]|] eqn:Hone; [|done].
    intros (new & -> & Hnew)%IH. exists (record :: new).
    rewrite <- app_assoc. split; [done|]. constructor; [|done].
    by eapply mark_one_record.
Qed.

(** With distinct ids, an event keeps every session, except that it
    closes one open session of its employee on the current date. *)
Lemma mark_one_keeps i emp db db' record r :
  NoDup (row_id <$> db) →
  mark_one clk i emp db = Ok (db', record) → r ∈ db →
  r ∈ db' ∨
  (row_time_out r = None ∧ session_of (emp_employee_id emp) date_text r ∧
   set_time_out now_text r ∈ db').
Proof.
  intros Hids [(existing & Hsel & Hopen & -> & _)|(_ & -> & _)]%mark_one_inv Hr.
  - apply select_latest_Some in Hsel as (Hex & Hs & _).
    unfold update_time_out. destruct (decide (row_id r = row_id existing)) as [Heq|Hne].
    + assert (r = existing) as ->.
      { apply (NoDup_fmap_1 row_id) in Hids as Hnd.
        apply list_elem_of_lookup in Hr as [j Hj].
        apply list_elem_of_lookup in Hex as [k Hk].
        assert (j = k) as ->; [|congruence].
        eapply (NoDup_lookup _ _ _ (row_id existing) Hids);
          rewrite list_lookup_fmap; [by rewrite Hj; simpl; f_equal|by rewrite Hk]. }
      right. split_and!; try done.
      apply list_elem_of_fmap. exists existing. by rewrite decide_True.
    + left. apply list_elem_of_fmap. exists r. by rewrite decide_False.
  - left. apply elem_of_app. by left.
Qed.

Lemma mark_each_keeps batch i db records db' records' r :
  NoDup (row_id <$> db) →
  mark_each clk i batch db records = Ok (db', records') → r ∈ db →
  r ∈ db' ∨
  (row_time_out r = None ∧ row_date r = date_text ∧
   (∃ emp, emp ∈ batch ∧ row_employee_id r = emp_employee_id emp) ∧
   set_time_out now_text r ∈ db').
Proof.
  revert i db records r. induction batch as [|emp batch IH];
    intros i db records r Hids; simpl; [intros [= <- _]; by left|].
  destruct (mark_one clk i emp db) as [[db1 record]|] eqn:Hone; [|done].
  intros Heach Hr.
  assert (NoDup (row_id <$> db1)) as Hids1.
  { destruct (mark_one_inv _ _ _ _ _ Hone)
      as [(existing & _ & _ & -> & _)|(_ & -> & _)].
    - by rewrite update_time_out_ids.
    - rewrite fmap_app. apply NoDup_app. split_and!; [done| |apply NoDup_singleton].
      intros x Hx ->%list_elem_of_singleton. by apply (next_id_fresh db). }
  destruct (mark_one_keeps _ _ _ _ _ _ Hids Hone Hr) as [Hr1|(Hopen & [He Hd] & Hr1)].
  - destruct (IH _ _ _ _ Hids1 Heach Hr1) as [?|(? & ? & (emp' & ? & ?) & ?)];
      [by left|right]. split_and!; try done. exists emp'. split; [by right|done].
  - right. split_and!; try done; [exists emp; split; [by left|done]|].
    destruct (IH _ _ _ _ Hids1 Heach Hr1) as [?|(Hcontra & _)]; [done|].
    by simpl in Hcontra.
Qed.
End ledger_more.

(** X1: a call that succeeds emits one record for each event of the batch,
    in the order of the batch, carrying the id and the name of the event,
    the date of the call and the status [Present]; an empty batch changes
    nothing, the report folder included. *)
Theorem mark_attendance_one_record_per_event (clk : clock)
    (batch : list employee) (st st' : store)
    (records : list attendance_record) :
  mark_attendance clk batch st = Ok (st', records) →
  Forall2 (λ emp record,
             rec_employee_id record = emp_employee_id emp ∧
             rec_name record = emp_name emp ∧
             rec_date record = date_isoformat (today clk) ∧
             rec_status record = "Present") batch records ∧
  length records = length batch ∧
  (batch = [] → st' = st).
Proof.
  unfold mark_attendance.
  destruct (mark_each clk 0 batch (attendance st) []) as [[db' rs]|] eqn:Heach;
    [|done].
  intros [= <- <-].
  destruct (mark_each_records _ _ _ _ _ _ _ Heach) as (new & -> & Hnew).
  simpl. split_and!; [done|by apply Forall2_length in Hnew|].
  intros ->. simpl in Heach. injection Heach as <- <-. by destruct st.
Qed.

Lemma after_table_ok clk batch st :
  table_ok (attendance st) → table_ok (attendance (after clk batch st)).
Proof.
  intros Hok. unfold after, mark_attendance.
  destruct (mark_each clk 0 batch (attendance st) []) as [[db' rs]|] eqn:Heach;
    [|done].
  simpl. by eapply mark_each_table_ok.
Qed.

Lemma reachable_keeps_table_ok
    (admissible : clock → list employee → list row → Prop) (st : store) :
  reachable admissible st → table_ok (attendance st).
Proof.
  induction 1 as [|clk batch st _ IH _].
  - split; constructor.
  - by apply after_table_ok.
Qed.

(** X2: whatever the clocks, the table reached from an empty one keeps its
    constraints: no two sessions share an id, and no two sessions share
    employee, date and [time_in]. *)
Theorem reachable_table_ok
    (admissible : clock → list employee → list row → Prop) (st : store) :
  reachable admissible st → table_ok (attendance st).
Proof. apply reachable_keeps_table_ok. Qed.

(** X3: a call never removes a session and never rewrites a closed one:
    each session of the table is still there afterwards, unchanged, unless
    it was open, of the current date and of an employee of the batch, in
    which case it may have received the current time as [time_out]. *)
Theorem sessions_persist
    (admissible : clock → list employee → list row → Prop) (st : store)
    (clk : clock) (batch : list employee) (r : row) :
  reachable admissible st → r ∈ attendance st →
  r ∈ attendance (after clk batch st) ∨
  (row_time_out r = None ∧
   row_date r = date_isoformat (today clk) ∧
   (∃ emp, emp ∈ batch ∧ row_employee_id r = emp_employee_id emp) ∧
   set_time_out (time_isoformat (current_time clk)) r
     ∈ attendance (after clk batch st)).
Proof.
  intros [Hids _]%reachable_keeps_table_ok Hr. unfold after, mark_attendance.
  destruct (mark_each clk 0 batch (attendance st) []) as [[db' rs]|] eqn:Heach;
    [|by left].
  simpl. by eapply mark_each_keeps.
Qed.

Lemma update_time_out_last t db r :
  (∀ x, x ∈ db → row_id x ≠ row_id r) →
  update_time_out t (row_id r) (db ++ [r]) = db ++ [set_time_out t r].
Proof.
  intros Hne. unfold update_time_out. rewrite fmap_app. f_equal.
  - rewrite <- (list_fmap_id db) at 2. apply list_fmap_ext.
    intros ? x Hx%list_elem_of_lookup_2. simpl. rewrite decide_False; [done|].
    by apply Hne.
  - simpl. by rewrite decide_True.
Qed.

(** X4: the first visit of the day followed by a second one.  The first
    call appends an open session and the second closes that very session:
    the table has gained exactly one session, with the time of the first
    visit as [time_in] and that of the second as [time_out].  The second
    record carries the stored [time_in], microseconds included, where the
    first record showed it to the second. *)
Theorem first_visit_then_second (clk1 clk2 : clock) (emp : employee)
    (st : store) :
  select_latest (emp_employee_id emp) (date_isoformat (today clk1))
    (attendance st) = None →
  today clk2 = today clk1 →
  ∃ st1 st2 session,
    mark_attendance clk1 [emp] st = Ok (st1, [punch_in_record clk1 emp]) ∧
    mark_attendance clk2 [emp] st1 =
      Ok (st2, [punch_out_record clk2 emp
                  (time_isoformat (current_time clk1))]) ∧
    attendance st2 = attendance st ++ [session] ∧
    row_employee_id session = emp_employee_id emp ∧
    row_date session = date_isoformat (today clk1) ∧
    row_time_in session = time_isoformat (current_time clk1) ∧
    row_time_out session = Some (time_isoformat (current_time clk2)).
Proof.
  intros Hnone Hday.
  set (db := attendance st).
  set (opened := new_row db (emp_employee_id emp) (emp_name emp)
                   (date_isoformat (today clk1))
                   (time_isoformat (current_time clk1)) "Present"
                   (CURRENT_TIMESTAMP clk1 0)).
  assert (mark_one clk1 0 emp db = Ok (db ++ [opened], punch_in_record clk1 emp))
    as Hfirst.
  { unfold mark_one. fold db in Hnone. rewrite Hnone. apply punch_in_Ok.
    by eapply no_session_no_conflict. }
  assert (select_latest (emp_employee_id emp) (date_isoformat (today clk2))
            (db ++ [opened]) = Some opened) as Hsel.
  { rewrite Hday. apply select_latest_newest.
    - apply elem_of_app. right. by left.
    - done.
    - intros r' [Hr'| ->%list_elem_of_singleton]%elem_of_app Hs Hne; [|done].
      rewrite select_latest_None in Hnone. by destruct (Hnone r'). }
  assert (mark_one clk2 0 emp (db ++ [opened]) =
          Ok (db ++ [set_time_out (time_isoformat (current_time clk2)) opened],
              punch_out_record clk2 emp (time_isoformat (current_time clk1))))
    as Hsecond.
  { unfold mark_one. rewrite Hsel.
    change (row_time_out opened) with (@None string). cbv iota.
    rewrite update_time_out_last; [reflexivity|].
    intros x Hx%next_id_above. simpl. lia. }
  set (st1 := {| attendance := db ++ [opened];
                 attendance_logs :=
                   save_to_excel (today_on_save clk1) (db ++ [opened])
                     (attendance_logs st) |}).
  exists st1. eexists. exists (set_time_out (time_isoformat (current_time clk2)) opened).
  split_and!.
  - unfold mark_attendance. cbn [mark_each]. fold db. by rewrite Hfirst.
  - unfold mark_attendance. cbn [mark_each attendance st1]. rewrite Hsecond.
    reflexivity.
  - reflexivity.
  - reflexivity.
  - reflexivity.
  - reflexivity.
  - reflexivity.
Qed.

(** * Further properties of the report *)
Section sorting_rows.
Variable le : selected → selected → bool.

Lemma insert_by_fmap {A} (f : A → selected) x (k : list A) :
  ∃ k', k' ≡ₚ x :: k ∧ insert_by le (f x) (f <$> k) = f <$> k'.
Proof.
  induction k as [|y k IH].
  - by exists [x].
  - rewrite fmap_cons. cbn [insert_by]. destruct (le (f x) (f y)).
    + by exists (x :: y :: k).
    + destruct IH as (k' & Hperm & ->). exists (y :: k'). split; [|done].
      rewrite Hperm. apply perm_swap.
Qed.

Lemma sort_by_fmap {A} (f : A → selected) (k : list A) :
  ∃ k', k' ≡ₚ k ∧ sort_by le (f <$> k) = f <$> k'.
Proof.
  induction k as [|x k IH].
  - by exists [].
  - destruct IH as (k' & Hperm & Heq). unfold sort_by in *.
    rewrite fmap_cons. cbn [foldr]. rewrite Heq.
    destruct (insert_by_fmap f x k') as (k'' & Hperm' & ->).
    exists k''. split; [|done]. by rewrite Hperm', Hperm.
Qed.

Lemma insert_by_Permutation x l : insert_by le x l ≡ₚ x :: l.
Proof.
  destruct (insert_by_fmap id x l) as (k & Hperm & Heq).
  rewrite !list_fmap_id in Heq. simpl in Heq. by rewrite Heq.
Qed.

Hypothesis le_total : ∀ a b, le a b = false → le b a = true.
Hypothesis le_trans : ∀ a b c, le a b = true → le b c = true → le a c = true.

Lemma insert_by_sorted x l :
  StronglySorted (λ a b, le a b = true) l →
  StronglySorted (λ a b, le a b = true) (insert_by le x l).
Proof.
  induction 1 as [|y l Hsorted IH Hall]; simpl.
  - repeat constructor.
  - destruct (le x y) eqn:Hxy.
    + constructor; [by constructor|]. constructor; [done|].
      eapply Forall_impl; [done|]. intros z ?. by eapply le_trans.
    + constructor; [done|].
      rewrite insert_by_Permutation. constructor; [by apply le_total|done].
Qed.

Lemma sort_by_sorted l : StronglySorted (λ a b, le a b = true) (sort_by le l).
Proof.
  induction l as [|x l IH]; [constructor|]. by apply insert_by_sorted.
Qed.
End sorting_rows.

Lemma insert_sorted_insert_by x l : insert_sorted x l = insert_by order_by x l.
Proof. induction l as [|y l IH]; [done|]. simpl. by rewrite IH. Qed.

Lemma sort_selected_sort_by l : sort_selected l = sort_by order_by l.
Proof.
  induction l as [|x l IH]; [done|]. unfold sort_selected, sort_by in *.
  simpl. by rewrite IH, insert_sorted_insert_by.
Qed.

Section text_order.
Lemma null_le_trans a b c :
  null_le a b = true → null_le b c = true → null_le a c = true.
Proof. destruct a, b, c; simpl; try done. apply leb_trans. Qed.

Lemma null_le_total a b : null_le a b = false → null_le b a = true.
Proof.
  destruct a as [x|], b as [y|]; simpl; try done.
  intros Hxy. by destruct (String.leb_total x y) as [?|?]; [congruence|].
Qed.

Lemma order_by_spec a b :
  order_by a b = true ↔
  String.leb (sel_employee_id a) (sel_employee_id b) = true ∧
  (sel_employee_id a = sel_employee_id b →
   null_le (sel_time_in a) (sel_time_in b) = true).
Proof.
  unfold order_by, String.leb.
  destruct (String.compare (sel_employee_id a) (sel_employee_id b)) eqn:Hc.
  - apply String.compare_eq_iff in Hc. split; [by intros ?|]. intros [_ H].
    by apply H.
  - split; [|done]. intros _. split; [done|]. intros Heq.
    rewrite Heq, compare_refl in Hc. done.
  - split; [done|]. by intros [? _].
Qed.

Lemma order_by_trans a b c :
  order_by a b = true → order_by b c = true → order_by a c = true.
Proof.
  rewrite !order_by_spec. intros [Hab Hab'] [Hbc Hbc']. split.
  - by eapply leb_trans.
  - intros Heq. rewrite Heq in Hab.
    assert (sel_employee_id b = sel_employee_id c) as Heq'
      by by apply leb_antisym'.
    eapply null_le_trans; [apply Hab'; congruence|by apply Hbc'].
Qed.

Lemma order_by_total a b : order_by a b = false → order_by b a = true.
Proof.
  unfold order_by.
  rewrite (String.compare_antisym (sel_employee_id b) (sel_employee_id a)).
  destruct (String.compare (sel_employee_id a) (sel_employee_id b));
    simpl; try done. apply null_le_total.
Qed.
End text_order.

Section report_content.
Lemma to_datetime_strftime_sqlite_time v :
  to_datetime_strftime (sqlite_time v) = sqlite_time v.
Proof.
  unfold sqlite_time. destruct v as [s|]; [|done]. cbn [mbind option_bind].
  destruct (parse_hms s) as [[[h m] sec]|] eqn:Hp; [|done].
  cbn [mbind option_bind]. unfold to_datetime_strftime. cbn [mbind option_bind].
  rewrite parse_hms_hms; [done|]. by eapply parse_hms_valid.
Qed.

Lemma format_row_select x r :
  format_row (select_row x) = Some r → shows x r.
Proof.
  unfold format_row. destruct (duration_cell _ _) as [duration|]; [|done].
  cbn [mbind option_bind]. intros [= <-]. unfold shows, select_row.
  cbn [rep_employee_id rep_name rep_date rep_status rep_time_in rep_time_out
       sel_employee_id sel_name sel_date sel_status sel_time_in sel_time_out].
  split_and!; try done.
  - exact (to_datetime_strftime_sqlite_time (Some (row_time_in x))).
  - exact (to_datetime_strftime_sqlite_time (row_time_out x)).
Qed.

Lemma StronglySorted_Forall2 {A B} (R1 : relation A) (R2 : relation B)
    (P : A → B → Prop) l k :
  (∀ a b a' b', P a a' → P b b' → R1 a b → R2 a' b') →
  Forall2 P l k → StronglySorted R1 l → StronglySorted R2 k.
Proof.
  intros HR HP. induction HP as [|a a' l k Ha HP IH]; [constructor|].
  intros [Hall Hsorted]%StronglySorted_cons. constructor; [by apply IH|].
  clear IH Hsorted. induction HP as [|b b' l k Hb HP IH]; [constructor|].
  apply Forall_cons in Hall as [Hab Hall]. constructor; [by eapply HR|by apply IH].
Qed.

Lemma StronglySorted_fmap_inv {A B} (f : A → B) (R : relation B) (l : list A) :
  StronglySorted R (f <$> l) → StronglySorted (λ x y, R (f x) (f y)) l.
Proof.
  induction l as [|x l IH]; [constructor|]. rewrite fmap_cons.
  intros [Hall Hsorted]%StronglySorted_cons. constructor; [by apply IH|].
  apply Forall_forall. intros y Hy.
  apply (proj1 (Forall_forall _ _) Hall). by apply list_elem_of_fmap_2.
Qed.

Lemma build_report_sessions date db rep :
  build_report date db = Some rep →
  ∃ sessions,
    sessions ≡ₚ filter (λ r, row_date r = date) db ∧
    Forall2 (λ x r, format_row (select_row x) = Some r) sessions (rows rep) ∧
    StronglySorted (λ x y, order_by (select_row x) (select_row y) = true)
      sessions ∧
    columns rep =
      ["employee_id"; "name"; "date"; "time_in"; "time_out"; "status"] ++
      match sessions with [] => [] | _ => ["duration"] end.
Proof.
  unfold build_report, query_day. rewrite sort_selected_sort_by.
  pose proof (sort_by_sorted order_by order_by_total order_by_trans
                (select_row <$> filter (λ r, row_date r = date) db)) as Hsorted.
  destruct (sort_by_fmap order_by select_row
              (filter (λ r, row_date r = date) db)) as (k & Hperm & Heq).
  rewrite Heq in Hsorted |- *. apply StronglySorted_fmap_inv in Hsorted.
  destruct k as [|x k].
  - intros [= <-]. exists []. split_and!; first [done|constructor].
  - rewrite fmap_cons. cbv iota. rewrite <- fmap_cons.
    destruct (mapM format_row (select_row <$> x :: k)) as [rs|] eqn:Hrs; [|done].
    cbn [mbind option_bind].
    intros [= <-]. exists (x :: k). split_and!; try done.
    apply mapM_Some_1 in Hrs. by apply Forall2_fmap_l in Hrs.
Qed.

(** X5: the report of a date has one row for each session of that date
    and no other row; the row shows the employee id, the name, the date
    and the status of its session, and its times cut to the second.  On a
    date without sessions the sheet has no rows and no [duration] column;
    otherwise it has the seven columns. *)
Theorem report_lists_the_sessions_of_the_day (today : datetime_date)
    (db : list row) (rep : report) :
  build_report (date_isoformat today) db = Some rep →
  ∃ sessions,
    sessions ≡ₚ filter (λ r, row_date r = date_isoformat today) db ∧
    Forall2 shows sessions (rows rep) ∧
    Forall (λ r, rep_date r = date_isoformat today) (rows rep) ∧
    length (rows rep) =
      length (filter (λ r, row_date r = date_isoformat today) db) ∧
    columns rep =
      ["employee_id"; "name"; "date"; "time_in"; "time_out"; "status"] ++
      match filter (λ r, row_date r = date_isoformat today) db with
      | [] => []
      | _ => ["duration"]
      end.
Proof.
  intros (sessions & Hperm & Hrows & _ & Hcols)%build_report_sessions.
  exists sessions.
  assert (Forall2 shows sessions (rows rep)) as Hshows.
  { eapply Forall2_impl; [done|]. intros x r. apply format_row_select. }
  split_and!; try done.
  - apply Forall_forall. intros r [i Hi]%list_elem_of_lookup.
    destruct (Forall2_lookup_r _ _ _ _ _ Hshows Hi) as (x & Hx & Hs).
    apply list_elem_of_lookup_2 in Hx. rewrite Hperm in Hx.
    apply list_elem_of_filter in Hx as [Hdate _].
    destruct Hs as (_ & _ & -> & _). done.
  - rewrite <- (Forall2_length _ _ _ Hrows). by rewrite Hperm.
  - rewrite Hcols. destruct sessions as [|x sessions].
    + apply Permutation_nil_l in Hperm. by rewrite <- Hperm.
    + destruct (filter _ db) eqn:Hf; [|done].
      by apply Permutation_nil_r in Hperm.
Qed.

(** X6: the rows of a report are in ascending order of employee id, texts
    being compared bytewise, and those of one employee in ascending order
    of the [time_in] cell. *)
Theorem report_rows_sorted (today : datetime_date) (db : list row)
    (rep : report) :
  build_report (date_isoformat today) db = Some rep →
  StronglySorted report_order (rows rep).
Proof.
  intros (sessions & _ & Hrows & Hsorted & _)%build_report_sessions.
  eapply StronglySorted_Forall2; [|done..].
  intros x y r r' (Hx & _ & _ & _ & Hxt & _)%format_row_select
                  (Hy & _ & _ & _ & Hyt & _)%format_row_select.
  rewrite order_by_spec. unfold report_order, select_row. simpl.
  by rewrite Hx, Hy, Hxt, Hyt.
Qed.
End report_content.

Section report_sync.
Lemma excel_path_inj d1 d2 :
  excel_path d1 = excel_path d2 → date_isoformat d1 = date_isoformat d2.
Proof.
  unfold excel_path. intros Heq%String.app_inj. by apply string_app_inj_r in Heq.
Qed.

Lemma build_report_filter date db db' :
  filter (λ r, row_date r = date) db' = filter (λ r, row_date r = date) db →
  build_report date db' = build_report date db.
Proof. intros Heq. unfold build_report, query_day. by rewrite Heq. Qed.

Lemma same_id_same_row db x y :
  NoDup (row_id <$> db) → x ∈ db → y ∈ db → row_id x = row_id y → x = y.
Proof.
  intros Hids [j Hj]%list_elem_of_lookup [k Hk]%list_elem_of_lookup Heq.
  assert (j = k) as ->; [|congruence].
  eapply (NoDup_lookup _ _ _ (row_id y) Hids);
    rewrite list_lookup_fmap; [by rewrite Hj; simpl; f_equal|by rewrite Hk].
Qed.

Lemma filter_fmap_fixed {A} (P : A → Prop) `{∀ x, Decision (P x)}
    (f : A → A) (l : list A) :
  (∀ x, x ∈ l → (P (f x) ↔ P x) ∧ (P x → f x = x)) →
  filter P (f <$> l) = filter P l.
Proof.
  induction l as [|x l IH]; intros Hf; [done|].
  rewrite fmap_cons, !filter_cons.
  destruct (Hf x ltac:(by left)) as [Hiff Hfix].
  rewrite IH by (intros y Hy; apply Hf; by right).
  destruct (decide (P x)) as [Hx|Hx].
  - rewrite decide_True by by apply Hiff. by rewrite Hfix.
  - rewrite decide_False by by rewrite Hiff. done.
Qed.

Lemma mark_one_ids clk i emp db db' record :
  NoDup (row_id <$> db) → mark_one clk i emp db = Ok (db', record) →
  NoDup (row_id <$> db').
Proof.
  intros Hids [(existing & _ & _ & -> & _)|(_ & -> & _)]%mark_one_inv.
  - by rewrite update_time_out_ids.
  - rewrite fmap_app. apply NoDup_app. split_and!; [done| |apply NoDup_singleton].
    intros x Hx ->%list_elem_of_singleton. by apply (next_id_fresh db).
Qed.

Lemma mark_one_other_dates clk i emp db db' record date :
  NoDup (row_id <$> db) → mark_one clk i emp db = Ok (db', record) →
  date ≠ date_isoformat (today clk) →
  filter (λ r, row_date r = date) db' = filter (λ r, row_date r = date) db.
Proof.
  intros Hids [(existing & Hsel & _ & -> & _)|(_ & -> & _)]%mark_one_inv Hdate.
  - apply select_latest_Some in Hsel as (Hex & [_ Hd] & _).
    unfold update_time_out. apply filter_fmap_fixed. intros x Hx.
    case_decide as Hid; [|done]. split; [done|]. intros Hxd.
    apply (same_id_same_row db x existing Hids Hx Hex) in Hid. congruence.
  - rewrite filter_app, filter_cons_False, filter_nil, app_nil_r; [done|].
    simpl. congruence.
Qed.

Lemma mark_each_other_dates clk batch i db records db' records' date :
  NoDup (row_id <$> db) →
  mark_each clk i batch db records = Ok (db', records') →
  date ≠ date_isoformat (today clk) →
  filter (λ r, row_date r = date) db' = filter (λ r, row_date r = date) db.
Proof.
  revert i db records. induction batch as [|emp batch IH];
    intros i db records Hids; simpl; [by intros [= <- _]|].
  destruct (mark_one clk i emp db) as [[db1 record]|] eqn:Hone; [|done].
  intros Heach Hdate. rewrite (IH _ _ _ (mark_one_ids _ _ _ _ _ _ Hids Hone) Heach Hdate).
  by eapply mark_one_other_dates.
Qed.

(** X7: a call that succeeds on a batch that is not empty writes the
    report of the date read by [save_to_excel], rebuilt from the table as
    the call leaves it, and touches no other file of the folder. *)
Theorem successful_batch_rewrites_report (clk : clock) (batch : list employee)
    (st st' : store) (records : list attendance_record) :
  mark_attendance clk batch st = Ok (st', records) → batch ≠ [] →
  attendance_logs st' !! excel_path (today_on_save clk) =
    build_report (date_isoformat (today_on_save clk)) (attendance st') ∧
  ∀ path, path ≠ excel_path (today_on_save clk) →
          attendance_logs st' !! path = attendance_logs st !! path.
Proof.
  unfold mark_attendance.
  destruct (mark_each clk 0 batch (attendance st) []) as [[db' rs]|] eqn:Heach;
    [|done].
  intros [= <- <-] Hbatch.
  destruct (mark_each_records _ _ _ _ _ _ _ Heach) as (new & -> & Hnew).
  destruct new as [|record new]; [by inversion Hnew; subst|]. simpl.
  unfold save_to_excel.
  destruct (build_report_total (date_isoformat (today_on_save clk)) db')
    as [rep Hrep].
  rewrite Hrep. split; [by rewrite lookup_insert_eq|].
  intros path Hne. by rewrite lookup_insert_ne.
Qed.

(** X8: as long as [save_to_excel] reads the same date as the call that
    triggers it, every report of the folder is at all times the one a
    rebuild from the table would give: no report goes stale. *)
Theorem reports_never_stale (st : store) :
  reachable same_day st → reports_in_sync st.
Proof.
  induction 1 as [|clk batch st Hreach IH Hday].
  - intros d rep Hlookup. simpl in Hlookup. by rewrite lookup_empty in Hlookup.
  - pose proof (reachable_keeps_table_ok _ _ Hreach) as [Hids _].
    unfold after, mark_attendance.
    destruct (mark_each clk 0 batch (attendance st) []) as [[db' rs]|] eqn:Heach;
      [|done].
    destruct (mark_each_records _ _ _ _ _ _ _ Heach) as (new & -> & Hnew).
    intros d rep. simpl. destruct new as [|record new].
    + inversion Hnew; subst. simpl in Heach. injection Heach as <-. apply IH.
    + unfold same_day in Hday. rewrite Hday. unfold save_to_excel.
      destruct (build_report_total (date_isoformat (today clk)) db')
        as [rep' Hrep'].
      rewrite Hrep'.
      destruct (decide (excel_path d = excel_path (today clk))) as [Heq|Hne].
      * rewrite Heq, lookup_insert_eq. intros [= <-].
        by rewrite (excel_path_inj _ _ Heq).
      * rewrite lookup_insert_ne by done. intros Hlookup%IH.
        rewrite <- Hlookup. apply build_report_filter.
        eapply mark_each_other_dates; [done..|].
        intros Heq. apply Hne. unfold excel_path. by rewrite Heq.
Qed.
End report_sync.

Section all_attendance.
Lemma order_by_date_desc_spec a b :
  order_by_date_desc a b = true ↔
  String.leb (sel_date b) (sel_date a) = true ∧
  (sel_date a = sel_date b → order_by a b = true).
Proof.
  unfold order_by_date_desc, String.leb.
  destruct (String.compare (sel_date b) (sel_date a)) eqn:Hc.
  - apply String.compare_eq_iff in Hc. split; [by intros ?|]. intros [_ H].
    by apply H.
  - split; [|done]. intros _. split; [done|]. intros Heq.
    rewrite Heq, compare_refl in Hc. done.
  - split; [done|]. by intros [? _].
Qed.

Lemma order_by_date_desc_trans a b c :
  order_by_date_desc a b = true → order_by_date_desc b c = true →
  order_by_date_desc a c = true.
Proof.
  rewrite !order_by_date_desc_spec. intros [Hab Hab'] [Hbc Hbc']. split.
  - by eapply leb_trans.
  - intros Heq. rewrite Heq in Hab.
    assert (sel_date b = sel_date c) as Heq' by by apply leb_antisym'.
    eapply order_by_trans; [apply Hab'; congruence|by apply Hbc'].
Qed.

Lemma order_by_date_desc_total a b :
  order_by_date_desc a b = false → order_by_date_desc b a = true.
Proof.
  unfold order_by_date_desc.
  rewrite (String.compare_antisym (sel_date a) (sel_date b)).
  destruct (String.compare (sel_date b) (sel_date a)); simpl; try done.
  apply order_by_total.
Qed.

Lemma date_isoformat_not_empty d : date_isoformat d ≠ "".
Proof.
  change (date_isoformat d) with
    (String (digit (year d / 10 / 10 / 10)) (String (digit (year d / 10 / 10))
     (String (digit (year d / 10)) (String (digit (year d)) (String "-"
     (String (digit (month d / 10)) (String (digit (month d)) (String "-"
     (String (digit (day d / 10)) (String (digit (day d)) "")))))))))).
  discriminate.
Qed.

Lemma get_all_attendance_sessions (start_date end_date : option string)
    (db : list row) :
  ∃ sessions,
    get_all_attendance start_date end_date db = select_row <$> sessions ∧
    StronglySorted
      (λ x y, order_by_date_desc (select_row x) (select_row y) = true)
      sessions ∧
    sessions ≡ₚ
      match start_date, end_date with
      | Some lo, Some hi =>
          if decide (lo ≠ "" ∧ hi ≠ "")
          then filter (λ r, String.leb lo (row_date r) = true ∧
                            String.leb (row_date r) hi = true) db
          else db
      | _, _ => db
      end.
Proof.
  assert (∀ l : list row, ∃ sessions,
            sort_by order_by_date_desc (select_row <$> l) = select_row <$> sessions ∧
            StronglySorted
              (λ x y, order_by_date_desc (select_row x) (select_row y) = true)
              sessions ∧
            sessions ≡ₚ l) as Hsort.
  { intros l. destruct (sort_by_fmap order_by_date_desc select_row l)
      as (k & Hperm & Heq).
    exists k. split_and!; try done.
    apply (StronglySorted_fmap_inv select_row
             (λ a b, order_by_date_desc a b = true)).
    rewrite <- Heq.
    apply sort_by_sorted; [apply order_by_date_desc_total|apply order_by_date_desc_trans]. }
  unfold get_all_attendance, truthy.
  destruct start_date as [lo|], end_date as [hi|]; simpl;
    rewrite ?andb_false_r; try apply Hsort.
  case_decide as Hboth.
  - destruct Hboth as [Hlo Hhi].
    rewrite !bool_decide_eq_false_2 by done. simpl.
    destruct (Hsort (filter (λ r, between lo hi (row_date r) = true) db))
      as (k & Heq & Hsorted & Hperm).
    exists k. split_and!; try done. rewrite Hperm.
    erewrite list_filter_iff; [done|]. intros r. unfold between.
    by rewrite andb_true_iff.
  - destruct (decide (lo = "")) as [->|Hlo]; [apply Hsort|].
    destruct (decide (hi = "")) as [->|Hhi]; [|by destruct Hboth].
    rewrite andb_false_r. apply Hsort.
Qed.
(** X9: given two dates, [get_all_attendance] returns one row for each
    session whose date text lies between theirs, bytewise, and no other,
    the latest date first and each date in the order of the daily report.
    When either bound is missing or empty the other is ignored and every
    session is returned. *)
Theorem get_all_attendance_range (db : list row) :
  (∀ lo hi : datetime_date, ∃ sessions,
     get_all_attendance (Some (date_isoformat lo)) (Some (date_isoformat hi))
       db = select_row <$> sessions ∧
     StronglySorted
       (λ x y, order_by_date_desc (select_row x) (select_row y) = true)
       sessions ∧
     sessions ≡ₚ
       filter (λ r, String.leb (date_isoformat lo) (row_date r) = true ∧
                    String.leb (row_date r) (date_isoformat hi) = true) db) ∧
  (∀ start_date end_date : option string,
     start_date = None ∨ start_date = Some "" ∨
     end_date = None ∨ end_date = Some "" →
     ∃ sessions,
       get_all_attendance start_date end_date db = select_row <$> sessions ∧
       StronglySorted
         (λ x y, order_by_date_desc (select_row x) (select_row y) = true)
         sessions ∧
       sessions ≡ₚ db).
Proof.
  split.
  - intros lo hi.
    destruct (get_all_attendance_sessions (Some (date_isoformat lo))
                (Some (date_isoformat hi)) db) as (k & Heq & Hsorted & Hperm).
    exists k. split_and!; [done..|].
    rewrite decide_True in Hperm; [done|].
    split; apply date_isoformat_not_empty.
  - intros start_date end_date Hmissing.
    destruct (get_all_attendance_sessions start_date end_date db)
      as (k & Heq & Hsorted & Hperm).
    exists k. split_and!; try done. rewrite Hperm.
    destruct start_date as [lo|], end_date as [hi|]; try done.
    rewrite decide_False; [done|].
    intros [Hlo Hhi].
    destruct Hmissing as [?|[[= ->]|[?|[= ->]]]]; done.
Qed.
End all_attendance.

(** * The attendance route *)
Section route.
Import app.
Variable clk : clock.
Local Abbreviation date_text := (date_isoformat (today clk)).
Local Abbreviation now_text := (time_isoformat (current_time clk)).

Lemma mark_one_distinct_Ok i emp db :
  (∀ r, r ∈ db → row_date r = date_text → row_time_in r = now_text →
        row_employee_id r ≠ emp_employee_id emp) →
  ∃ db' record, mark_one clk i emp db = Ok (db', record).
Proof.
  intros Hfree. unfold mark_one.
  assert (∃ db' record, punch_in clk i emp db = Ok (db', record)) as Hin.
  { rewrite punch_in_Ok; [by eexists _, _|].
    intros (r & Hr & [He Hd] & Ht)%Exists_exists. by apply (Hfree r). }
  destruct (select_latest _ _ db) as [existing|]; [|done].
  destruct (row_time_out existing); [done|]. by eexists _, _.
Qed.

(** A batch of distinct employees goes through when no session of the
    current date already has the current time as [time_in]. *)
Lemma mark_each_distinct_Ok batch i db records :
  NoDup (emp_employee_id <$> batch) →
  (∀ r, r ∈ db → row_date r = date_text → row_time_in r = now_text →
        row_employee_id r ∉ emp_employee_id <$> batch) →
  ∃ db' records', mark_each clk i batch db records = Ok (db', records').
Proof.
  revert i db records. induction batch as [|emp batch IH];
    intros i db records Hnd Hfree; simpl; [by eexists _, _|].
  apply NoDup_cons in Hnd as [Hemp Hnd].
  destruct (mark_one_distinct_Ok i emp db) as (db1 & record & Hone).
  { intros r Hr Hd Ht Heq. apply (Hfree r Hr Hd Ht). rewrite Heq. by left. }
  rewrite Hone. apply IH; [done|].
  intros r Hr Hd Ht Hin.
  destruct (mark_one_inv _ _ _ _ _ _ Hone)
    as [(existing & _ & _ & -> & _)|(_ & -> & _)].
  - unfold update_time_out in Hr. apply list_elem_of_fmap in Hr as (x & -> & Hx).
    apply (Hfree x Hx); [by case_decide..|].
    right. by case_decide.
  - apply elem_of_app in Hr as [Hr| ->%list_elem_of_singleton].
    + apply (Hfree r Hr Hd Ht). by right.
    + done.
Qed.

Lemma compare_faces_length score cache embs t :
  length (compare_faces score cache embs t) ≤ length embs.
Proof.
  induction embs as [|e embs IH]; simpl; [done|].
  destruct (best_match score cache e) as [m|]; [|lia].
  destruct (PrimFloat.ltb t (similarity m)); simpl; lia.
Qed.

(** X10: what the route does with the faces of a frame.  Provided no
    session of the current date already has the current time as
    [time_in], the call cannot fail: the answer lists the employees
    recognised, each once and no more of them than faces detected, counts
    all the faces detected, and carries one attendance record for each
    employee recognised, in the same order. *)
Theorem route_marks_each_recognized_once
    (score : Embedding → Embedding → float) (embeddings : list Embedding)
    (employees_cache : list (string * cache_entry)) (st : store) :
  embeddings ≠ [] →
  (∀ r, r ∈ attendance st → row_date r = date_text →
        row_time_in r ≠ now_text) →
  ∃ st' records,
    mark_attendance score clk embeddings employees_cache st =
      (Marked (unique_matches
                 (compare_faces score employees_cache embeddings route_threshold))
         (length embeddings) records, st') ∧
    NoDup (employee_id <$>
             unique_matches
               (compare_faces score employees_cache embeddings route_threshold)) ∧
    length (unique_matches
              (compare_faces score employees_cache embeddings route_threshold))
      ≤ length embeddings ∧
    Forall2 (λ m record,
               rec_employee_id record = employee_id m ∧
               rec_name record = name m)
      (unique_matches
         (compare_faces score employees_cache embeddings route_threshold))
      records.
Proof.
  intros Hfaces Hfree. unfold mark_attendance.
  destruct embeddings as [|e embs]; [done|].
  set (embeddings := e :: embs).
  set (unique := unique_matches
                   (compare_faces score employees_cache embeddings route_threshold)).
  assert (NoDup (employee_id <$> unique)) as Hnd
    by apply remove_duplicates_NoDup.
  assert (length unique ≤ length embeddings) as Hlen.
  { etrans; [|apply (compare_faces_length score employees_cache _ route_threshold)].
    apply sublist_length, remove_duplicates_sublist. }
  destruct unique as [|m unique'] eqn:Hunique.
  { eexists _, _. split_and!; [done|done|done|constructor]. }
  rewrite <- Hunique in *.
  assert (NoDup (emp_employee_id <$> attendance_data unique)) as Hnd'.
  { unfold attendance_data. by rewrite <- list_fmap_compose. }
  destruct (mark_each_distinct_Ok (attendance_data unique) 0 (attendance st) [] Hnd')
    as (db' & records & Heach).
  { intros r Hr Hd Ht. by destruct (Hfree r Hr Hd). }
  unfold attendance_manager.mark_attendance. rewrite Heach.
  eexists _, _. split_and!; [|done..|].
  - rewrite Hunique at 1. cbv iota. by rewrite <- Hunique.
  - destruct (mark_each_records _ _ _ _ _ _ _ Heach) as (new & -> & Hnew).
    simpl. unfold attendance_data in Hnew. apply Forall2_fmap_l in Hnew.
    eapply Forall2_impl; [done|]. by intros ? ? (? & ? & _).
Qed.
End route.

(** * Further properties of the registration *)
Section register_more.
Import app.
Context {image : Type}.
Variable decode_image : string → option image.
Variable represent : image → option Embedding.
Variable sanitize_filename : string → string.
Variable strip : string → string.
Variable writable : string → bool.
Variable write_error : string → string.
Local Abbreviation register :=
  (register_employee decode_image represent sanitize_filename strip writable
     write_error).
Implicit Types st : state (image:=image).

Lemma next_free_not_empty fuel (exists_ : string → bool) candidate counter path :
  path ≠ "" → (∀ c, candidate c ≠ "") →
  next_free fuel exists_ candidate counter path ≠ "".
Proof.
  revert counter path. induction fuel as [|fuel IH]; intros counter path; simpl;
    [done|].
  intros Hpath Hcand. destruct (exists_ path); [|done]. by apply IH.
Qed.

Lemma path_join_not_empty folder filename : path_join folder filename ≠ "".
Proof.
  unfold path_join. destruct filename as [|c rest].
  - intros Heq. apply (f_equal String.length) in Heq.
    rewrite string_length_app in Heq. cbn [String.length] in Heq. lia.
  - case_bool_decide; [done|]. intros Heq.
    apply (f_equal String.length) in Heq.
    rewrite !string_length_app in Heq. cbn [String.length] in Heq. lia.
Qed.

Lemma free_path_not_empty (files : gmap string (file (image:=image))) stem ext :
  free_path files stem ext ≠ "".
Proof.
  unfold free_path. apply next_free_not_empty; [apply path_join_not_empty|].
  intros c. apply path_join_not_empty.
Qed.

Local Abbreviation stem_of data :=
  (strip (data_employee_id data) +:+ "_" +:+
   sanitize_filename (strip (data_name data))).
Local Abbreviation face_path_of st data :=
  (free_path (faces st) (stem_of data) ".jpg").
Local Abbreviation embedding_path_of st data frame :=
  (free_path (<[face_path_of st data := Jpg frame]> (faces st))
     (stem_of data) ".npy").
Local Abbreviation acceptable st data :=
  (strip (data_employee_id data) ≠ "" ∧ strip (data_name data) ≠ "" ∧
   data_image data ≠ "" ∧
   ∀ e, e ∈ employees st →
        Employee_employee_id e ≠ strip (data_employee_id data)).

Lemma face_path_fresh st data : faces st !! face_path_of st data = None.
Proof. apply free_path_fresh, stem_not_empty. Qed.

Lemma embedding_path_fresh st data frame :
  faces st !! embedding_path_of st data frame = None ∧
  face_path_of st data ≠ embedding_path_of st data frame.
Proof.
  pose proof (free_path_fresh
                (<[face_path_of st data := Jpg frame]> (faces st))
                (stem_of data) ".npy" (stem_not_empty _ _)) as Hfresh.
  assert (face_path_of st data ≠ embedding_path_of st data frame) as Hne.
  { intros Heq. rewrite <- Heq in Hfresh. by rewrite lookup_insert_eq in Hfresh. }
  split; [|done]. by rewrite lookup_insert_ne in Hfresh.
Qed.

(** The three ways a request ends: refused with the state as it was;
    the face image written but the embedding not; registered. *)
Lemma register_employee_cases now data st :
  (∃ msg,
      register now data st = (failure msg, st) ∧
      (¬ acceptable st data ∨ decode_image (data_image data) = None ∨
       ∃ frame, decode_image (data_image data) = Some frame ∧
                (writable (face_path_of st data) = false ∨
                 represent frame = None))) ∨
  (∃ frame embedding,
      acceptable st data ∧
      decode_image (data_image data) = Some frame ∧
      represent frame = Some embedding ∧
      writable (face_path_of st data) = true ∧
      writable (embedding_path_of st data frame) = false ∧
      register now data st =
        (failure ("Registration failed: " +:+
                  write_error (embedding_path_of st data frame)),
         {| faces := <[face_path_of st data := Jpg frame]> (faces st);
            employees := employees st;
            employees_cache := employees_cache st |})) ∨
  (∃ frame embedding,
      acceptable st data ∧
      decode_image (data_image data) = Some frame ∧
      represent frame = Some embedding ∧
      writable (face_path_of st data) = true ∧
      writable (embedding_path_of st data frame) = true ∧
      register now data st =
        ({| success := true;
            message := "Employee " +:+ strip (data_name data) +:+
                       " registered successfully!" |},
         {| faces := <[embedding_path_of st data frame := Npy embedding]>
                       (<[face_path_of st data := Jpg frame]> (faces st));
            employees :=
              employees st ++
              [{| Employee_employee_id := strip (data_employee_id data);
                  Employee_name := strip (data_name data);
                  Employee_department := strip (data_department data);
                  Employee_position := strip (data_position data);
                  face_image_path := face_path_of st data;
                  face_encoding_path := embedding_path_of st data frame;
                  registered_at := now |}];
            employees_cache :=
              dict_set (strip (data_employee_id data))
                (gallery_entry (strip (data_employee_id data))
                   (strip (data_name data)) (strip (data_department data))
                   (strip (data_position data)) embedding)
                (employees_cache st) |})).
Proof.
  unfold register_employee.
  case_bool_decide as Hmissing.
  { left. eexists. split; [done|]. left. intros (? & ? & ? & _).
    by destruct Hmissing as [?|[?|?]]. }
  case_bool_decide as Hexists.
  { left. eexists. split; [done|]. left. intros (_ & _ & _ & Hnew).
    apply Exists_exists in Hexists as (e & He & Heq). by apply (Hnew e). }
  assert (acceptable st data) as Hok.
  { split_and!.
    - intros ?. apply Hmissing. by left.
    - intros ?. apply Hmissing. right. by left.
    - intros ?. apply Hmissing. right. by right.
    - intros e He Heq. apply Hexists, Exists_exists. by exists e. }
  destruct (decode_image (data_image data)) as [frame|] eqn:Hdecode.
  2:{ left. eexists. split; [done|]. right. by left. }
  pose proof (face_path_fresh st data) as Hfresh.
  unfold imwrite, extract_face_embedding, path_exists.
  destruct (writable (face_path_of st data)) eqn:Hw.
  2:{ rewrite Hfresh. rewrite bool_decide_eq_false_2 by by intros [? ?].
      left. eexists. split; [by destruct st|].
      right. right. exists frame. split; [done|by left]. }
  rewrite lookup_insert_eq.
  destruct (represent frame) as [embedding|] eqn:Hface.
  2:{ rewrite bool_decide_eq_true_2 by by eexists.
      rewrite delete_insert_id by done. left. eexists. split; [by destruct st|].
      right. right. exists frame. split; [done|by right]. }
  destruct (writable (embedding_path_of st data frame)) eqn:Hw'; simpl.
  - right. right. by exists frame, embedding.
  - right. left. by exists frame, embedding.
Qed.

(** X11: a request with an id, a name and an image, whose id is not in
    the table, whose image decodes and shows a face, and whose files the
    file system accepts, is registered: the answer is a success, the image
    and the embedding are written at two paths where no file was, the
    employee is appended to the table with these paths, and the gallery
    maps the id to the new entry. *)
Theorem register_employee_success (now : Z) (data : registration) st
    (frame : image) (embedding : Embedding) :
  acceptable st data →
  decode_image (data_image data) = Some frame →
  represent frame = Some embedding →
  (∀ path, writable path = true) →
  faces st !! face_path_of st data = None ∧
  faces st !! embedding_path_of st data frame = None ∧
  face_path_of st data ≠ embedding_path_of st data frame ∧
  register now data st =
    ({| success := true;
        message := "Employee " +:+ strip (data_name data) +:+
                   " registered successfully!" |},
     {| faces := <[embedding_path_of st data frame := Npy embedding]>
                   (<[face_path_of st data := Jpg frame]> (faces st));
        employees :=
          employees st ++
          [{| Employee_employee_id := strip (data_employee_id data);
              Employee_name := strip (data_name data);
              Employee_department := strip (data_department data);
              Employee_position := strip (data_position data);
              face_image_path := face_path_of st data;
              face_encoding_path := embedding_path_of st data frame;
              registered_at := now |}];
        employees_cache :=
          dict_set (strip (data_employee_id data))
            (gallery_entry (strip (data_employee_id data))
               (strip (data_name data)) (strip (data_department data))
               (strip (data_position data)) embedding)
            (employees_cache st) |}).
Proof.
  intros Hok Hdecode Hface Hw.
  destruct (embedding_path_fresh st data frame) as [Hfresh' Hne].
  split_and!; [apply face_path_fresh|done..|].
  destruct (register_employee_cases now data st)
    as [(msg & _ & [Hbad|[Hnone|(frame' & Hd & [Hw'|Hnoface])]])|
        [(frame' & embedding' & _ & Hd & _ & _ & Hw' & _)|
         (frame' & embedding' & _ & Hd & Hf & _ & _ & Heq)]].
  - done.
  - congruence.
  - by rewrite Hw in Hw'.
  - congruence.
  - by rewrite Hw in Hw'.
  - assert (frame' = frame) as -> by congruence.
    assert (embedding' = embedding) as -> by congruence. done.
Qed.

(** X12: when the image is written but saving the embedding fails, the
    answer is a failure, the table and the gallery are as before, and the
    image stays in the folder, at a path where no file was. *)
Theorem register_employee_embedding_not_saved (now : Z) (data : registration)
    st (frame : image) (embedding : Embedding) :
  acceptable st data →
  decode_image (data_image data) = Some frame →
  represent frame = Some embedding →
  writable (face_path_of st data) = true →
  writable (embedding_path_of st data frame) = false →
  faces st !! face_path_of st data = None ∧
  register now data st =
    (failure ("Registration failed: " +:+
              write_error (embedding_path_of st data frame)),
     {| faces := <[face_path_of st data := Jpg frame]> (faces st);
        employees := employees st;
        employees_cache := employees_cache st |}).
Proof.
  intros Hok Hdecode Hface Hw Hw'. split; [apply face_path_fresh|].
  destruct (register_employee_cases now data st)
    as [(msg & _ & [Hbad|[Hnone|(frame' & Hd & [Hw''|Hnoface])]])|
        [(frame' & embedding' & _ & Hd & _ & _ & _ & Heq)|
         (frame' & embedding' & _ & Hd & _ & _ & Hw'' & _)]].
  - done.
  - congruence.
  - congruence.
  - congruence.
  - by assert (frame' = frame) as -> by congruence.
  - assert (frame' = frame) as -> by congruence. congruence.
Qed.

(** X13: whatever the request, registration neither overwrites nor
    removes a file that was in the folder, and an answer that is not a
    success leaves the table of employees and the gallery as they were. *)
Theorem register_employee_keeps_files (now : Z) (data : registration) st :
  (∀ path f, faces st !! path = Some f →
             faces (register now data st).2 !! path = Some f) ∧
  (success (register now data st).1 = false →
   employees (register now data st).2 = employees st ∧
   employees_cache (register now data st).2 = employees_cache st).
Proof.
  pose proof (face_path_fresh st data) as Hfresh.
  destruct (register_employee_cases now data st)
    as [(msg & -> & _)|
        [(frame & embedding & _ & _ & _ & _ & _ & ->)|
         (frame & embedding & _ & _ & _ & _ & _ & ->)]]; simpl.
  - done.
  - split; [|done]. intros path f Hf. rewrite lookup_insert_ne; [done|].
    intros <-. congruence.
  - destruct (embedding_path_fresh st data frame) as [Hfresh' _].
    split; [|done]. intros path f Hf.
    rewrite !lookup_insert_ne; [done|intros <-; congruence..].
Qed.

(** X14: an id that has been registered is taken: [check_employee] answers
    that it already exists, and a further request for this id, whatever
    its name and image, is refused with the state unchanged. *)
Theorem registered_id_is_taken (now : Z) (data : registration) st :
  success (register now data st).1 = true →
  let st' := (register now data st).2 in
  (∀ raw, strip raw = strip (data_employee_id data) →
     check_employee strip raw st' =
     {| available := false;
        availability_message := "Employee ID already exists" |}) ∧
  (∀ now' data',
     strip (data_employee_id data') = strip (data_employee_id data) →
     strip (data_name data') ≠ "" → data_image data' ≠ "" →
     register now' data' st' = (failure "Employee ID already exists", st')).
Proof.
  destruct (register_employee_cases now data st)
    as [(msg & -> & _)|
        [(frame & embedding & _ & _ & _ & _ & _ & ->)|
         (frame & embedding & (Hid & _) & _ & _ & _ & _ & ->)]]; simpl;
    [done..|].
  intros _.
  assert (∀ x, x = strip (data_employee_id data) →
    Exists (λ e, Employee_employee_id e = x)
      (employees st ++
       [{| Employee_employee_id := strip (data_employee_id data);
           Employee_name := strip (data_name data);
           Employee_department := strip (data_department data);
           Employee_position := strip (data_position data);
           face_image_path := face_path_of st data;
           face_encoding_path := embedding_path_of st data frame;
           registered_at := now |}])) as Htaken.
  { intros x ->. apply Exists_app. right. by constructor. }
  split.
  - intros raw Hraw. unfold check_employee. rewrite Hraw.
    rewrite bool_decide_eq_false_2 by done.
    by rewrite bool_decide_eq_true_2 by by apply Htaken.
  - intros now' data' Hraw Hname Himage. unfold register_employee.
    rewrite Hraw. rewrite bool_decide_eq_false_2.
    + by rewrite bool_decide_eq_true_2 by by apply Htaken.
    + by intros [?|[?|?]].
Qed.

Lemma dict_set_fresh key entry (d : list (string * cache_entry)) :
  key ∉ d.*1 → dict_set key entry d = d ++ [(key, entry)].
Proof.
  induction d as [|[k v] d IH]; [done|]. rewrite fmap_cons. cbn [dict_set fst].
  intros Hk. rewrite decide_False; [|intros ->; apply Hk; by left].
  rewrite IH; [done|]. intros ?. apply Hk. by right.
Qed.

Lemma foldl_load_entry_ext (files files' : gmap string (file (image:=image)))
    cache (l : list Employee) :
  (∀ e, e ∈ l → files' !! face_encoding_path e = files !! face_encoding_path e) →
  foldl (load_entry files') cache l = foldl (load_entry files) cache l.
Proof.
  revert cache. induction l as [|e l IH]; intros cache Hext; [done|].
  cbn [foldl]. rewrite IH by (intros e' He'; apply Hext; by right).
  f_equal. unfold load_entry. rewrite Hext by by left. done.
Qed.

(** What registrations keep true of the folder, the table and the
    gallery. *)
Local Abbreviation gallery_ok st :=
  (NoDup (Employee_employee_id <$> employees st) ∧
   (employees_cache st).*1 = Employee_employee_id <$> employees st ∧
   (∀ e, e ∈ employees st → is_Some (faces st !! face_encoding_path e)) ∧
   employees_cache st = foldl (load_entry (faces st)) [] (employees st)).

Lemma register_employee_gallery_ok now data st :
  gallery_ok st → gallery_ok (register now data st).2.
Proof.
  intros (Hids & Hkeys & Hfiles & Hload).
  pose proof (face_path_fresh st data) as Hfresh.
  destruct (register_employee_cases now data st)
    as [(msg & -> & _)|
        [(frame & embedding & _ & _ & _ & _ & _ & ->)|
         (frame & embedding & (_ & _ & _ & Hnew) & _ & _ & _ & _ & ->)]];
    cbn [snd].
  - done.
  - assert (∀ e, e ∈ employees st →
              <[face_path_of st data := Jpg frame]> (faces st)
                !! face_encoding_path e = faces st !! face_encoding_path e) as Hext.
    { intros e [f Hf]%Hfiles. rewrite lookup_insert_ne; [done|].
      intros Heq. rewrite Heq in Hfresh. congruence. }
    split_and!; cbn [faces employees employees_cache]; try done.
    + intros e He. rewrite Hext by done. by apply Hfiles.
    + by rewrite (foldl_load_entry_ext (faces st)).
  - destruct (embedding_path_fresh st data frame) as [Hfresh' Hne].
    assert (∀ e, e ∈ employees st →
              <[embedding_path_of st data frame := Npy embedding]>
                (<[face_path_of st data := Jpg frame]> (faces st))
                !! face_encoding_path e = faces st !! face_encoding_path e) as Hext.
    { intros e [f Hf]%Hfiles. rewrite !lookup_insert_ne; [done|..];
        intros Heq; [rewrite Heq in Hfresh|rewrite Heq in Hfresh']; congruence. }
    assert (strip (data_employee_id data) ∉ (employees_cache st).*1) as Hkey.
    { rewrite Hkeys. intros (e & Heq & He)%list_elem_of_fmap. by apply (Hnew e). }
    split_and!; cbn [faces employees employees_cache].
    + rewrite fmap_app. apply NoDup_app. split_and!; [done| |apply NoDup_singleton].
      intros x (e & -> & He)%list_elem_of_fmap
               (e' & Heq & ->%list_elem_of_singleton)%list_elem_of_fmap.
      by apply (Hnew e).
    + rewrite dict_set_fresh by done. by rewrite !fmap_app, Hkeys.
    + intros e [He| ->%list_elem_of_singleton]%elem_of_app.
      * rewrite Hext by done. by apply Hfiles.
      * cbn [face_encoding_path]. rewrite lookup_insert_eq. by eexists.
    + rewrite foldl_app. cbn [foldl].
      rewrite (foldl_load_entry_ext (faces st)) by done.
      rewrite <- Hload. unfold load_entry at 1. cbn [face_encoding_path].
      rewrite bool_decide_eq_false_2 by apply free_path_not_empty.
      by rewrite lookup_insert_eq.
Qed.

(** X15: after any sequence of requests, the gallery kept in memory is
    the one [load_employees_to_cache] would rebuild from the table and the
    folder; it lists the employees of the table, in the order of their
    registration, and no two of them share an id. *)
Theorem gallery_is_what_a_reload_gives st :
  registered decode_image represent sanitize_filename strip writable
    write_error st →
  load_employees_to_cache st = st ∧
  (employees_cache st).*1 = Employee_employee_id <$> employees st ∧
  NoDup (Employee_employee_id <$> employees st).
Proof.
  intros Hreg. assert (gallery_ok st) as (Hids & Hkeys & _ & Hload).
  { induction Hreg as [|now data st _ IH].
    - split_and!; [constructor|done|by intros e ?%elem_of_nil|done].
    - by apply register_employee_gallery_ok. }
  split_and!; try done. unfold load_employees_to_cache. rewrite <- Hload.
  by destruct st.
Qed.
End register_more.

(** * Further properties of the matcher *)
Section matcher_more.
Import app.
Variable score : Embedding → Embedding → float.

Local Ltac by_compare' :=
  repeat match goal with
    | |- context [Z.compare ?a ?b] => destruct (Z.compare_spec a b)
    | |- context [Pos.compare_cont Eq ?a ?b] =>
        change (Pos.compare_cont Eq a b) with (Pos.compare a b);
        destruct (Pos.compare_spec a b)
    end;
  simpl; try discriminate; try reflexivity; try lia.

Lemma SFltb_SFeqb x y z :
  SFltb x y = true → SFeqb z y = true → SFltb x z = true.
Proof.
  unfold SFltb, SFeqb, SFcompare.
  destruct x as [s|s| |s m e], y as [s'|s'| |s' m' e'],
    z as [s''|s''| |s'' m'' e''];
    try destruct s; try destruct s'; try destruct s'';
    simpl; try discriminate; try reflexivity; by_compare'.
Qed.

Lemma float_ltb_eqb (x y z : float) :
  PrimFloat.ltb x y = true → PrimFloat.eqb z y = true →
  PrimFloat.ltb x z = true.
Proof.
  rewrite !FloatAxioms.ltb_spec, FloatAxioms.eqb_spec. apply SFltb_SFeqb.
Qed.

(** The match held after some turns of the inner loop is the one held
    before them, or comes from one of the entries they visited. *)
Lemma foldl_scan_origin e (l : list (string * cache_entry)) best :
  (foldl (scan score e) best l).1 = best.1 ∨
  ∃ item, item ∈ l ∧
          (foldl (scan score e) best l).1 = Some (entry_match score e item).
Proof.
  revert best. induction l as [|item l IH]; intros best; [by left|].
  cbn [foldl]. destruct (IH (scan score e best item)) as [Heq|(it & Hit & Heq)].
  - rewrite Heq. destruct item as [k d]. unfold scan.
    destruct (PrimFloat.ltb best.2 (score e (ce_embedding d))); [|by left].
    right. exists (k, d). split; [by left|done].
  - right. exists it. split; [by right|done].
Qed.

(** X16: every match returned carries the id, the name, the department
    and the position of an entry of the gallery, with the score of that
    entry for one of the faces; there are no more matches than faces, and
    none when the gallery is empty. *)
Theorem compare_faces_matches_come_from_gallery
    (employees_cache : list (string * cache_entry))
    (embeddings : list Embedding) (threshold : float) :
  (∀ m, m ∈ compare_faces score employees_cache embeddings threshold →
     ∃ e item, e ∈ embeddings ∧ item ∈ employees_cache ∧
               m = entry_match score e item) ∧
  length (compare_faces score employees_cache embeddings threshold)
    ≤ length embeddings ∧
  (employees_cache = [] →
   compare_faces score employees_cache embeddings threshold = []).
Proof.
  split_and!.
  - intros m (e & He & Hbest & _)%elem_of_compare_faces.
    apply best_match_spec in Hbest as (_ & (item & Hitem & ->) & _).
    by exists e, item.
  - apply compare_faces_length.
  - intros ->. by induction embeddings as [|e embs IH].
Qed.

(** X17: among the entries of the gallery that reach the best score for a
    face, the one met first, that is the one registered first, is the
    match: no entry before the one returned has a score equal to its
    score. *)
Theorem best_match_first_among_equals
    (before behind : list (string * cache_entry))
    (item : string * cache_entry) (e : Embedding) (m : face_match) :
  NoDup (before ++ item :: behind).*1 →
  best_match score (before ++ item :: behind) e = Some m →
  employee_id m = item.1 →
  m = entry_match score e item ∧
  ∀ item', item' ∈ before →
    PrimFloat.eqb (score e (ce_embedding item'.2))
                  (score e (ce_embedding item.2)) = false.
Proof.
  intros Hnd Hbest Hkey. unfold best_match in Hbest.
  rewrite foldl_app in Hbest. cbn [foldl] in Hbest.
  set (b0 := foldl (scan score e) (None, PrimFloat.zero) before) in *.
  rewrite fmap_app, fmap_cons in Hnd.
  apply NoDup_app in Hnd as (_ & Hdisj & [Hitem _]%NoDup_cons).
  assert ((scan score e b0 item).1 = Some m) as Hb1.
  { destruct (foldl_scan_origin e behind (scan score e b0 item))
      as [Heq|(it & Hit & Heq)]; [congruence|].
    rewrite Heq in Hbest. injection Hbest as <-. destruct Hitem.
    rewrite <- Hkey. simpl. by apply list_elem_of_fmap_2. }
  assert (PrimFloat.ltb b0.2 (score e (ce_embedding item.2)) = true) as Hfired.
  { destruct (PrimFloat.ltb b0.2 (score e (ce_embedding item.2))) eqn:Hlt; [done|].
    exfalso. destruct item as [k d]. unfold scan in Hb1. simpl in Hlt.
    rewrite Hlt in Hb1.
    destruct (foldl_scan_origin e before (None, PrimFloat.zero))
      as [Heq|(it & Hit & Heq)]; fold b0 in Heq; [simpl in Heq; congruence|].
    rewrite Heq in Hb1. injection Hb1 as <-. simpl in Hkey.
    apply (Hdisj it.1); [by apply list_elem_of_fmap_2|]. rewrite Hkey. by left. }
  split.
  - destruct item as [k d]. unfold scan in Hb1. simpl in Hfired.
    rewrite Hfired in Hb1. by injection Hb1 as <-.
  - intros item' Hin.
    destruct (PrimFloat.eqb _ _) eqn:Heq; [|done].
    pose proof (float_ltb_eqb _ _ _ Hfired Heq) as Hlt.
    pose proof (foldl_scan_best score e before (None, PrimFloat.zero) item' Hin)
      as Hdom.
    fold b0 in Hdom. congruence.
Qed.
End matcher_more.

(** * The download routes *)
Section download.
Import app.

Lemma contains_dotdot_spec s :
  contains_dotdot s = true ↔ ∃ pre post, s = pre +:+ ".." +:+ post.
Proof.
  induction s as [|a s IH].
  - split; [done|]. intros ([|? ?] & post & Heq); discriminate Heq.
  - cbn [contains_dotdot]. rewrite orb_true_iff, andb_true_iff, IH. split.
    + intros [[Ha Hb]|(pre & post & ->)].
      * apply bool_decide_eq_true in Ha as ->. destruct s as [|b s]; [done|].
        apply bool_decide_eq_true in Hb as ->. by exists "", s.
      * by exists (String a pre), post.
    + intros ([|c pre] & post & Heq).
      * left. change ("" +:+ ".." +:+ post) with (String "." (String "." post)) in Heq.
        injection Heq as -> ->. by rewrite !bool_decide_eq_true_2.
      * right. rewrite string_app_cons in Heq. injection Heq as -> ->.
        by exists pre, post.
Qed.

Lemma starts_with_slash_spec s :
  starts_with_slash s = true ↔ ∃ rest, s = "/" +:+ rest.
Proof.
  destruct s as [|a s]; simpl.
  - split; [done|]. by intros (rest & Heq).
  - rewrite bool_decide_eq_true. split.
    + intros ->. by exists s.
    + intros (rest & Heq). by injection Heq as -> _.
Qed.

Lemma ends_with_app pre suffix : ends_with suffix (pre +:+ suffix) = true.
Proof.
  induction pre as [|c pre IH].
  - change ("" +:+ suffix) with suffix. destruct suffix; cbn [ends_with];
      by rewrite bool_decide_eq_true_2.
  - rewrite string_app_cons. cbn [ends_with]. rewrite IH. by case_bool_decide.
Qed.

Lemma string_app_assoc (a b c : string) : (a +:+ b) +:+ c = a +:+ b +:+ c.
Proof.
  induction a as [|x a IH]; [done|]. rewrite !string_app_cons. by rewrite IH.
Qed.

Lemma ends_with_spec suffix s :
  ends_with suffix s = true ↔ ∃ pre, s = pre +:+ suffix.
Proof.
  split; [|intros (pre & ->); apply ends_with_app].
  induction s as [|c s IH]; cbn [ends_with]; case_bool_decide as Heq.
  - intros _. by exists "".
  - done.
  - intros _. by exists "".
  - intros (pre & ->)%IH. by exists (String c pre).
Qed.

(** X18: the download route serves a file only under a name that has no
    [..] in it, does not begin with [/] and ends in [.xlsx]; the file
    served is the one of that name in the folder of the reports.  A name
    with [..] in it or beginning with [/] is refused whatever the folder
    holds. *)
Theorem download_attendance_file_safe (filename : string)
    (files : gmap string report) :
  (∀ path content name,
     download_attendance_file filename files = SendFile path content name →
     path = "attendance_logs/" +:+ filename ∧ name = filename ∧
     files !! path = Some content ∧
     (∀ pre post, filename ≠ pre +:+ ".." +:+ post) ∧
     (∀ rest, filename ≠ "/" +:+ rest) ∧
     ∃ stem, filename = stem +:+ ".xlsx") ∧
  ((∃ pre post, filename = pre +:+ ".." +:+ post) ∨
   (∃ rest, filename = "/" +:+ rest) →
   download_attendance_file filename files = DownloadRefused "Invalid filename").
Proof.
  unfold download_attendance_file. split.
  - intros path content name.
    destruct (contains_dotdot filename) eqn:Hdots; [done|].
    destruct (starts_with_slash filename) eqn:Hslash; [done|]. cbn [orb].
    assert (path_join attendance_logs_folder filename
            = "attendance_logs/" +:+ filename) as ->.
    { unfold path_join. destruct filename as [|c rest]; [done|].
      simpl in Hslash. by rewrite Hslash. }
    destruct (files !! _) as [content'|] eqn:Hfile; [|done].
    destruct (ends_with ".xlsx" filename) eqn:Hext; [|done].
    intros [= <- <- <-]. split_and!; try done.
    + intros pre post Heq.
      assert (contains_dotdot filename = true) as Hc
        by (apply contains_dotdot_spec; eauto). congruence.
    + intros rest Heq.
      assert (starts_with_slash filename = true) as Hc
        by (apply starts_with_slash_spec; eauto). congruence.
    + by apply ends_with_spec.
  - intros [Hdots%contains_dotdot_spec|Hslash%starts_with_slash_spec].
    + by rewrite Hdots.
    + rewrite Hslash. by rewrite orb_true_r.
Qed.

Lemma digit_not_dot n : digit n ≠ "."%char.
Proof.
  intros Heq. pose proof (digit_value_digit n) as Hd. rewrite Heq in Hd.
  vm_compute in Hd. discriminate.
Qed.

Lemma report_name_no_dotdot d :
  contains_dotdot ("attendance_" +:+ date_isoformat d +:+ ".xlsx") = false.
Proof.
  change ("attendance_" +:+ date_isoformat d +:+ ".xlsx") with
    (String "a" (String "t" (String "t" (String "e" (String "n" (String "d"
     (String "a" (String "n" (String "c" (String "e" (String "_"
     (String (digit (year d / 10 / 10 / 10)) (String (digit (year d / 10 / 10))
     (String (digit (year d / 10)) (String (digit (year d)) (String "-"
     (String (digit (month d / 10)) (String (digit (month d)) (String "-"
     (String (digit (day d / 10)) (String (digit (day d))
     ".xlsx"))))))))))))))))))))).
  cbn [contains_dotdot].
  rewrite !(bool_decide_eq_false_2 (digit _ = "."%char)) by apply digit_not_dot.
  reflexivity.
Qed.

(** X19: the report written for a day can be fetched: after
    [save_to_excel], both download routes serve, under the name
    [attendance_<date>.xlsx], the sheet rebuilt from the table. *)
Theorem saved_report_can_be_downloaded (today : datetime_date)
    (db : list row) (files : gmap string report) :
  ∃ rep,
    build_report (date_isoformat today) db = Some rep ∧
    download_attendance_file
      ("attendance_" +:+ date_isoformat today +:+ ".xlsx")
      (save_to_excel today db files) =
    SendFile (excel_path today) rep
      ("attendance_" +:+ date_isoformat today +:+ ".xlsx") ∧
    download_today_attendance today (save_to_excel today db files) =
    SendFile (excel_path today) rep
      ("attendance_" +:+ date_isoformat today +:+ ".xlsx").
Proof.
  destruct (build_report_total (date_isoformat today) db) as [rep Hrep].
  exists rep. split; [done|].
  assert (path_join attendance_logs_folder
            ("attendance_" +:+ date_isoformat today +:+ ".xlsx")
          = excel_path today) as Hpath by reflexivity.
  assert (save_to_excel today db files !! excel_path today = Some rep) as Hfile.
  { unfold save_to_excel. rewrite Hrep. apply lookup_insert_eq. }
  split.
  - unfold download_attendance_file.
    rewrite report_name_no_dotdot, Hpath, Hfile.
    change (starts_with_slash _) with false. cbn [orb].
    rewrite <- (string_app_assoc "attendance_").
    by rewrite (ends_with_app ("attendance_" +:+ date_isoformat today) ".xlsx").
  - unfold download_today_attendance. cbv zeta. by rewrite Hpath, Hfile.
Qed.
End download.

(** * Instances of the further properties *)

Lemma mark_attendance_one_record_per_event_witness :
  length [punch_in_record (sample_clock 9 0 0 100) E1] = length [E1].
Proof.
  apply (mark_attendance_one_record_per_event (sample_clock 9 0 0 100) [E1]
           empty_store store_in).
  vm_compute. reflexivity.
Defined.

Lemma reachable_table_ok_witness :
  table_ok (attendance store_clock_set_back).
Proof.
  apply (reachable_table_ok any_clock).
  unfold store_clock_set_back, store_in.
  repeat (apply reachable_call; [|exact I]). apply reachable_empty.
Defined.

Lemma sessions_persist_witness :
  closed_session ∈ attendance (after (sample_clock 17 30 0 300) [E1] store_in_out) ∨
  (row_time_out closed_session = None ∧
   row_date closed_session = date_isoformat (today (sample_clock 17 30 0 300)) ∧
   (∃ emp, emp ∈ [E1] ∧ row_employee_id closed_session = emp_employee_id emp) ∧
   set_time_out (time_isoformat (current_time (sample_clock 17 30 0 300)))
     closed_session
     ∈ attendance (after (sample_clock 17 30 0 300) [E1] store_in_out)).
Proof.
  apply (sessions_persist fresh_stamps store_in_out).
  - apply reachable_store_in_out.
  - vm_compute. left.
Defined.

Lemma first_visit_then_second_witness :
  ∃ st1 st2 session,
    mark_attendance (sample_clock 9 0 0 100) [E1] empty_store =
      Ok (st1, [punch_in_record (sample_clock 9 0 0 100) E1]) ∧
    mark_attendance (sample_clock 17 0 0 200) [E1] st1 =
      Ok (st2, [punch_out_record (sample_clock 17 0 0 200) E1 "09:00:00"]) ∧
    attendance st2 = [session] ∧
    row_time_in session = "09:00:00" ∧ row_time_out session = Some "17:00:00".
Proof.
  destruct (first_visit_then_second (sample_clock 9 0 0 100)
              (sample_clock 17 0 0 200) E1 empty_store)
    as (st1 & st2 & session & H1 & H2 & H3 & _ & _ & H4 & H5).
  - reflexivity.
  - reflexivity.
  - exists st1, st2, session. split_and!; [exact H1|exact H2|exact H3|exact H4|exact H5].
Defined.

Lemma report_lists_the_sessions_of_the_day_witness :
  ∃ rep, build_report (date_isoformat sample_day) (attendance store_in_out) = Some rep ∧
         length (rows rep) = 1.
Proof.
  destruct (build_report_total (date_isoformat sample_day) (attendance store_in_out))
    as [rep Hrep].
  exists rep. split; [exact Hrep|].
  destruct (report_lists_the_sessions_of_the_day _ _ _ Hrep)
    as (sessions & _ & _ & _ & Hlen & _).
  exact Hlen.
Defined.

Lemma report_rows_sorted_witness :
  ∃ rep, build_report (date_isoformat sample_day) (attendance store_clock_set_back) = Some rep ∧
         StronglySorted report_order (rows rep).
Proof.
  destruct (build_report_total (date_isoformat sample_day) (attendance store_clock_set_back))
    as [rep Hrep].
  exists rep. split; [exact Hrep|]. exact (report_rows_sorted _ _ _ Hrep).
Defined.

Lemma successful_batch_rewrites_report_witness :
  attendance_logs store_in !! excel_path sample_day =
  build_report (date_isoformat sample_day) (attendance store_in).
Proof.
  apply (successful_batch_rewrites_report (sample_clock 9 0 0 100) [E1]
           empty_store store_in [punch_in_record (sample_clock 9 0 0 100) E1]).
  - vm_compute. reflexivity.
  - discriminate.
Defined.

Lemma reports_never_stale_witness : reports_in_sync store_in_out.
Proof.
  apply reports_never_stale. unfold store_in_out, store_in.
  repeat (apply reachable_call; [|reflexivity]). apply reachable_empty.
Defined.

Lemma route_marks_each_recognized_once_witness :
  ∃ st' records,
    app.mark_attendance app.cosine_similarity (sample_clock 9 0 0 100)
      [sample_face] sample_gallery empty_store =
    (app.Marked [match_A] 1 records, st') ∧ length records = 1.
Proof.
  destruct (route_marks_each_recognized_once (sample_clock 9 0 0 100)
              app.cosine_similarity [sample_face] sample_gallery empty_store)
    as (st' & records & Heq & _ & _ & Hrecords).
  - discriminate.
  - intros r Hr. by apply elem_of_nil in Hr.
  - exists st', records. split; [exact Heq|].
    symmetry. exact (Forall2_length _ _ _ Hrecords).
Defined.

Lemma register_employee_success_witness :
  ∃ st',
    app.register_employee sample_decode sample_represent (λ s, s) (λ s, s)
      (λ _, true) (λ _, "") 0 sample_registration sample_state =
    ({| app.success := true;
        app.message := "Employee Ann registered successfully!" |}, st').
Proof.
  eexists.
  apply (register_employee_success sample_decode sample_represent (λ s, s)
           (λ s, s) (λ _, true) (λ _, "") 0 sample_registration sample_state
           "data:image/jpeg;base64,AAAA" [3; 4]%float).
  - split_and!; [discriminate..|]. intros e He. by apply elem_of_nil in He.
  - reflexivity.
  - reflexivity.
  - reflexivity.
Defined.

Lemma register_employee_embedding_not_saved_witness :
  ∃ msg st',
    app.register_employee sample_decode sample_represent (λ s, s) (λ s, s)
      images_only (λ _, "disk full") 0 sample_registration sample_state =
    (app.failure msg, st') ∧
    is_Some (app.faces st' !! "faces/E1_Ann.jpg").
Proof.
  destruct (register_employee_embedding_not_saved sample_decode sample_represent
              (λ s, s) (λ s, s) images_only (λ _, "disk full") 0
              sample_registration sample_state
              "data:image/jpeg;base64,AAAA" [3; 4]%float) as [_ Heq].
  - split_and!; [discriminate..|]. intros e He. by apply elem_of_nil in He.
  - reflexivity.
  - reflexivity.
  - vm_compute. reflexivity.
  - vm_compute. reflexivity.
  - eexists _, _. split; [exact Heq|]. vm_compute. by eexists.
Defined.

Lemma registered_id_is_taken_witness :
  app.check_employee (λ s, s) "E1"
    (app.register_employee sample_decode sample_represent (λ s, s) (λ s, s)
       (λ _, true) (λ _, "") 0 sample_registration sample_state).2 =
  {| app.available := false;
     app.availability_message := "Employee ID already exists" |}.
Proof.
  apply (registered_id_is_taken sample_decode sample_represent (λ s, s)
           (λ s, s) (λ _, true) (λ _, "") 0 sample_registration sample_state).
  - vm_compute. reflexivity.
  - reflexivity.
Defined.

Lemma gallery_is_what_a_reload_gives_witness :
  app.load_employees_to_cache
    (app.register_employee sample_decode sample_represent (λ s, s) (λ s, s)
       (λ _, true) (λ _, "") 0 sample_registration sample_state).2
  = (app.register_employee sample_decode sample_represent (λ s, s) (λ s, s)
       (λ _, true) (λ _, "") 0 sample_registration sample_state).2.
Proof.
  apply (gallery_is_what_a_reload_gives sample_decode sample_represent (λ s, s)
           (λ s, s) (λ _, true) (λ _, "")).
  apply registered_call, registered_empty.
Defined.

Lemma best_match_first_among_equals_witness :
  app.best_match app.cosine_similarity [entry_B; entry_A; entry_C] sample_face
  = Some match_A ∧
  PrimFloat.eqb
    (app.cosine_similarity sample_face (app.ce_embedding entry_C.2))
    (app.cosine_similarity sample_face (app.ce_embedding entry_A.2)) = true ∧
  PrimFloat.eqb
    (app.cosine_similarity sample_face (app.ce_embedding entry_B.2))
    (app.cosine_similarity sample_face (app.ce_embedding entry_A.2)) = false.
Proof.
  split; [vm_compute; reflexivity|]. split; [vm_compute; reflexivity|].
  apply (proj2 (best_match_first_among_equals app.cosine_similarity
                  [entry_B] [entry_C] entry_A sample_face match_A
                  ltac:(apply (bool_decide_unpack _); vm_compute; exact I)
                  ltac:(vm_compute; reflexivity) eq_refl)).
  left.
Defined.
